(** * top100.py: the largest-companies dashboard

    A shallow embedding of [top100.py], a Streamlit script that loads
    [Largest_Companies.csv] with pandas, normalises two text columns into
    numbers and derives a handful of views (head, industry filter,
    headquarters frequency).

    The script is three lines of its own logic around library calls, so the
    embedding is organised by library:

    - [Py]: the Python built-ins the casts bottom out in ([int(str)],
      [float(str)], [str.lower], [in] on strings);
    - [Pd]: the pandas objects and methods the script calls ([Series],
      [DataFrame], [.str.replace], [.astype], [.head], [.unique], [.isin],
      [.value_counts]), the last one over an [argsort] left open;
    - [Np]: the sort numpy puts there, its portable quicksort;
    - [St]: the [st.cache_data] memo table;
    - [Top100]: the script itself, statement by statement;
    - [Spec]: the words of the specification, and the inputs of the
      examples.

    The facts follow: [PyFacts], [PdFacts], [LoadFacts], [ViewFacts],
    [CountFacts], [SortFacts] and [NpFacts] about the parts, [Claims] about
    the script.

    Conventions.  A Python [str] is held as a [string] of bytes, its
    UTF-8 form; [int()] and [float()] read it as CPython does, Unicode
    white space and decimal digits included.  [int] is a signed 64-bit
    integer, as [astype(int)] gives on the
    platforms where C [long] has 64 bits.  A [float] is a binary64 value,
    written as a [spec_float] of the Standard Library.  A frame is what
    [pd.read_csv] has made of the file: a column in which every field reads
    as a number is a numeric column, any other is an object column of text,
    with NaN for an empty field. *)

From Stdlib Require Import ZArith String Ascii List Bool Lia SpecFloat.
From stdpp Require Import gmap strings list sorting.

Import ListNotations.
Local Open Scope Z_scope.

(* ===================================================================== *)
(** * Python built-ins *)
(* ===================================================================== *)

Module Py.

(** The exceptions that can escape [load_data]. *)
Inductive exn : Type :=
| ValueError      (* int()/float() on text that is not a numeral *)
| OverflowError   (* Python int too large to convert to C long *)
| KeyError        (* df['col'] on a missing column *)
| AttributeError. (* .str on a Series that does not hold text *)

Definition result (A : Type) : Type := exn + A.

Definition raise {A} (e : exn) : result A := inl e.
Definition ret {A} (a : A) : result A := inr a.
Definition bind {A B} (m : result A) (k : A -> result B) : result B :=
  match m with
  | inl e => inl e
  | inr a => k a
  end.

Declare Scope py_scope.
Delimit Scope py_scope with py.
Notation "'let*' x ':=' m 'in' k" := (bind m (fun x => k))
  (at level 10, x name, m at level 100, k at level 200) : py_scope.

(** [Py_ISSPACE]: TAB, LF, VT, FF, CR and the blank, the white space of
    the parsers, which read bytes.  The wider white space of Unicode
    reaches them as blanks, through [to_ascii] below. *)
Definition is_space (c : ascii) : bool :=
  let n := Z.of_nat (nat_of_ascii c) in
  ((9 <=? n) && (n <=? 13)) || (n =? 32).

Definition is_digit (c : ascii) : bool :=
  let n := Z.of_nat (nat_of_ascii c) in (48 <=? n) && (n <=? 57).

Definition digit_value (c : ascii) : Z := Z.of_nat (nat_of_ascii c) - 48.

(** [str.lower()], byte by byte: a capital ASCII letter becomes its small
    letter.  (Beyond ASCII [str.lower] maps characters to characters beyond
    ASCII, but for U+0130 and U+212A, which give an [i] and a [k]; the
    script only asks whether "name" or "company" occurs, so the bytes
    beyond ASCII are left as they are.) *)
Definition lower_char (c : ascii) : ascii :=
  let n := nat_of_ascii c in
  if ((65 <=? n) && (n <=? 90))%nat then ascii_of_nat (n + 32) else c.

Fixpoint lower (s : string) : string :=
  match s with
  | EmptyString => EmptyString
  | String c s' => String (lower_char c) (lower s')
  end.

(** [sub in s]: substring test. *)
Fixpoint contains (sub s : string) : bool :=
  String.prefix sub s ||
  match s with
  | EmptyString => false
  | String _ s' => contains sub s'
  end.

Fixpoint skip_space (s : string) : string :=
  match s with
  | String c s' => if is_space c then skip_space s' else s
  | EmptyString => EmptyString
  end.

(** ** Text beyond ASCII

    A [str] is a sequence of code points; the bytes of a [string] are its
    UTF-8 form, as in the file.  [code_points] reads them back, and refuses
    what is no UTF-8 (a stray or missing continuation byte, an overlong
    form, a surrogate, a value beyond U+10FFFF): such bytes are no [str],
    and [pd.read_csv] does not produce them. *)

Definition byte (c : ascii) : Z := Z.of_nat (nat_of_ascii c).

(** A continuation byte, [10xxxxxx], gives its six bits. *)
Definition continuation (c : ascii) : option Z :=
  let b := byte c in
  if (128 <=? b) && (b <? 192) then Some (b - 128) else None.

(** A code point read from a sequence of the given length is accepted when
    it needs that length and is no surrogate. *)
Definition well_formed (least ch : Z) : bool :=
  (least <=? ch) && (ch <=? 1114111) && negb ((55296 <=? ch) && (ch <=? 57343)).

Fixpoint code_points (s : string) : option (list Z) :=
  match s with
  | EmptyString => Some []
  | String c0 s1 =>
      let b0 := byte c0 in
      if b0 <? 128 then option_map (cons b0) (code_points s1)
      else if b0 <? 192 then None
      else if b0 <? 224 then
        match s1 with
        | String c1 s2 =>
            match continuation c1 with
            | Some x1 =>
                let ch := (b0 - 192) * 64 + x1 in
                if well_formed 128 ch
                then option_map (cons ch) (code_points s2) else None
            | None => None
            end
        | _ => None
        end
      else if b0 <? 240 then
        match s1 with
        | String c1 (String c2 s3) =>
            match continuation c1, continuation c2 with
            | Some x1, Some x2 =>
                let ch := (b0 - 224) * 4096 + x1 * 64 + x2 in
                if well_formed 2048 ch
                then option_map (cons ch) (code_points s3) else None
            | _, _ => None
            end
        | _ => None
        end
      else if b0 <? 248 then
        match s1 with
        | String c1 (String c2 (String c3 s4)) =>
            match continuation c1, continuation c2, continuation c3 with
            | Some x1, Some x2, Some x3 =>
                let ch := (b0 - 240) * 262144 + x1 * 4096 + x2 * 64 + x3 in
                if well_formed 65536 ch
                then option_map (cons ch) (code_points s4) else None
            | _, _, _ => None
            end
        | _ => None
        end
      else None
  end.

(** [Py_UNICODE_ISSPACE]: the characters of bidirectional type WS, B or S
    and those of category Zs. *)
Definition unicode_isspace (ch : Z) : bool :=
  ((9 <=? ch) && (ch <=? 13)) || ((28 <=? ch) && (ch <=? 32)) ||
  (ch =? 133) || (ch =? 160) || (ch =? 5760) ||
  ((8192 <=? ch) && (ch <=? 8202)) || (ch =? 8232) || (ch =? 8233) ||
  (ch =? 8239) || (ch =? 8287) || (ch =? 12288).

(** The decimal digits beyond ASCII (category Nd) come in runs of ten,
    zero to nine; these are the zeros, in the Unicode 14.0 of CPython
    3.11. *)
Definition decimal_zeros : list Z :=
  [1632; 1776; 1984; 2406; 2534; 2662; 2790; 2918; 3046; 3174; 3302; 3430;
   3558; 3664; 3792; 3872; 4160; 4240; 6112; 6160; 6470; 6608; 6784; 6800;
   6992; 7088; 7232; 7248; 42528; 43216; 43264; 43472; 43504; 43600; 44016;
   65296; 66720; 68912; 69734; 69872; 69942; 70096; 70384; 70736; 70864;
   71248; 71360; 71472; 71904; 72016; 72784; 73040; 73120; 92768; 92864;
   93008; 120782; 120792; 120802; 120812; 120822; 123200; 123632; 125264;
   130032].

(** [Py_UNICODE_TODECIMAL] *)
Definition unicode_todecimal (ch : Z) : option Z :=
  if (48 <=? ch) && (ch <=? 57) then Some (ch - 48)
  else match List.find (fun z => (z <=? ch) && (ch <=? z + 9)) decimal_zeros with
       | Some z => Some (ch - z)
       | None => None
       end.

Definition ascii_of (ch : Z) : ascii := ascii_of_nat (Z.to_nat ch).

(** The loop of [_PyUnicode_TransformDecimalAndSpaceToASCII]: a character
    below 127 stays, white space becomes a blank, a decimal digit its ASCII
    digit; at any other character the text ends, on a question mark. *)
Fixpoint transform (chs : list Z) : string :=
  match chs with
  | [] => EmptyString
  | ch :: chs' =>
      if ch <? 127 then String (ascii_of ch) (transform chs')
      else if unicode_isspace ch then String " " (transform chs')
      else match unicode_todecimal ch with
           | Some d => String (ascii_of (48 + d)) (transform chs')
           | None => String "?" EmptyString
           end
  end.

(** [_PyUnicode_TransformDecimalAndSpaceToASCII]: an ASCII text is returned
    as it is. *)
Definition to_ascii (s : string) : option string :=
  match code_points s with
  | Some chs =>
      Some (if forallb (fun ch => ch <? 128) chs then s else transform chs)
  | None => None
  end.

(** ** [int(str)]: [PyLong_FromUnicodeObject] in base 10

    The text goes through [to_ascii], then through [PyLong_FromString]:

    Leading white space, an optional sign, then decimal digits in which a
    single underscore may separate two digits, then trailing white space up
    to the end of the text.  A numeral of more than 4300 digits is refused,
    whatever its value ([sys.int_info.default_max_str_digits]). *)

Definition max_str_digits : Z := 4300.

(** The digit scan.  [prev_us] says that the previous character was an
    underscore; [acc] is the value of the digits read so far and [digits]
    their number.  It returns the value, the number of digits and the unread
    rest, or [None] for a doubled or trailing underscore. *)
Fixpoint scan_digits (prev_us : bool) (acc digits : Z) (s : string)
  : option (Z * Z * string) :=
  match s with
  | String c s' =>
      if is_digit c
      then scan_digits false (acc * 10 + digit_value c) (digits + 1) s'
      else if Ascii.eqb c "_" then
        if prev_us then None else scan_digits true acc digits s'
      else if prev_us then None else Some (acc, digits, s)
  | EmptyString => if prev_us then None else Some (acc, digits, s)
  end.

Definition starts_with_digit (s : string) : bool :=
  match s with
  | String c _ => is_digit c
  | EmptyString => false
  end.

Definition split_sign (s : string) : bool * string :=
  match s with
  | String "+" s' => (false, s')
  | String "-" s' => (true, s')
  | _ => (false, s)
  end.

(** [PyLong_FromString] on the bytes of an ASCII text. *)
Definition long_from_string (s : string) : option Z :=
  let '(neg, body) := split_sign (skip_space s) in
  if starts_with_digit body then
    match scan_digits false 0 0 body with
    | Some (n, digits, rest) =>
        if digits <=? max_str_digits then
          match skip_space rest with
          | EmptyString => Some (if neg then - n else n)
          | String _ _ => None
          end
        else None
    | None => None
    end
  else None.

(** [int(s)] on a [str]: [PyLong_FromUnicodeObject]. *)
Definition parse_int (s : string) : option Z :=
  match to_ascii s with
  | Some t => long_from_string t
  | None => None
  end.

Definition int (s : string) : result Z :=
  match parse_int s with
  | Some n => ret n
  | None => raise ValueError
  end.

(** ** [float(str)]: [PyFloat_FromString]

    The text goes through [to_ascii] as well.  Then:
    white space is stripped at both ends; an underscore must stand between
    two digits and is dropped; what is left is a sign followed by [inf],
    [infinity] or [nan] in any letter case, or by a decimal numeral with an
    optional fraction and an optional exponent.  The value is the binary64
    number nearest to the decimal one, ties to even; a numeral beyond the
    binary64 range gives an infinity. *)

Definition prec : Z := 53.
Definition emax : Z := 1024.

(** The binary64 value nearest to [(-1)^neg * m * 10^e]. *)
Definition float_of_decimal (neg : bool) (m e : Z) : spec_float :=
  match m with
  | Zpos p =>
      if 0 <=? e then binary_round prec emax neg (Z.to_pos (Zpos p * 10 ^ e)) 0
      else SFdiv prec emax (S754_finite neg p 0)
                           (S754_finite false (Z.to_pos (10 ^ (- e))) 0)
  | _ => S754_zero neg
  end.

(** The underscore pass of [_Py_string_to_number_with_underscores]: [prev]
    is the previous character, if any. *)
Fixpoint drop_underscores (prev : option ascii) (s : string) : option string :=
  match s with
  | String c s' =>
      if Ascii.eqb c "_" then
        match prev with
        | Some p => if is_digit p then drop_underscores (Some c) s' else None
        | None => None
        end
      else
        let after_us := match prev with
                        | Some p => Ascii.eqb p "_"
                        | None => false
                        end in
        if after_us && negb (is_digit c) then None
        else option_map (String c) (drop_underscores (Some c) s')
  | EmptyString =>
      match prev with
      | Some p => if Ascii.eqb p "_" then None else Some EmptyString
      | None => Some EmptyString
      end
  end.

(** A run of digits: value so far, number of digits read, unread rest. *)
Fixpoint read_digits (acc : Z) (n : Z) (s : string) : Z * Z * string :=
  match s with
  | String c s' =>
      if is_digit c then read_digits (acc * 10 + digit_value c) (n + 1) s'
      else (acc, n, s)
  | EmptyString => (acc, n, s)
  end.

(** The exponent part: [e] or [E], an optional sign, at least one digit.
    When no digit follows, the [e] is not part of the numeral. *)
Definition read_exponent (s : string) : Z * string :=
  match s with
  | String c s' =>
      if Ascii.eqb (lower_char c) "e" then
        let '(eneg, body) := split_sign s' in
        let '(v, n, rest) := read_digits 0 0 body in
        if n =? 0 then (0, s) else (if eneg then - v else v, rest)
      else (0, s)
  | EmptyString => (0, s)
  end.

(** [_Py_dg_strtod] after the sign: the digits, the fraction and the
    exponent.  [None] when there is no digit at all. *)
Definition read_decimal (s : string) : option (Z * Z * string) :=
  let '(ip, ni, r1) := read_digits 0 0 s in
  let '(m, nf, r2) :=
    match r1 with
    | String "." r => let '(m, nf, r2) := read_digits ip 0 r in (m, nf, r2)
    | _ => (ip, 0, r1)
    end in
  if ni + nf =? 0 then None
  else let '(e, r3) := read_exponent r2 in Some (m, e - nf, r3).

(** [_Py_parse_inf_or_nan] after the sign. *)
Definition read_inf_or_nan (neg : bool) (s : string)
  : option (spec_float * string) :=
  let l := lower s in
  if String.prefix "inf" l then
    if String.prefix "infinity" l
    then Some (S754_infinity neg, String.substring 8 (String.length s - 8) s)
    else Some (S754_infinity neg, String.substring 3 (String.length s - 3) s)
  else if String.prefix "nan" l
  then Some (S754_nan, String.substring 3 (String.length s - 3) s)
  else None.

(** [float_from_string_inner] behind its strip and its underscore pass, on
    the bytes of an ASCII text. *)
Definition float_from_string (s : string) : option spec_float :=
  match drop_underscores None s with
  | None => None
  | Some t =>
      let '(neg, body) := split_sign (skip_space t) in
      let parsed :=
        match read_decimal body with
        | Some (m, e, rest) => Some (float_of_decimal neg m e, rest)
        | None => read_inf_or_nan neg body
        end in
      match parsed with
      | Some (f, rest) =>
          match skip_space rest with
          | EmptyString => Some f
          | String _ _ => None
          end
      | None => None
      end
  end.

(** [float(s)] on a [str]: [PyFloat_FromString]. *)
Definition parse_float (s : string) : option spec_float :=
  match to_ascii s with
  | Some t => float_from_string t
  | None => None
  end.

Definition float (s : string) : result spec_float :=
  match parse_float s with
  | Some f => ret f
  | None => raise ValueError
  end.

End Py.

(* ===================================================================== *)
(** * pandas *)
(* ===================================================================== *)

Module Pd.

Import Py.
Local Open Scope py_scope.

(** One element of a column: a Python [str], an integer or a float.  A
    missing value is the float NaN, in every dtype. *)
Inductive cell : Type :=
| Str (s : string)
| Int (n : Z)
| Flt (f : spec_float).

Definition nan : cell := Flt S754_nan.

Definition isna (c : cell) : bool :=
  match c with
  | Flt S754_nan => true
  | _ => false
  end.

Inductive dtype : Type := object_ | int64 | float64.

Record Series : Type := mkSeries { dtype_of : dtype; values : list cell }.

(** A frame is its columns, in their declared order. *)
Definition DataFrame : Type := list (string * Series).

Definition columns (df : DataFrame) : list string := map fst df.

(** [len(df)] *)
Definition nrows (df : DataFrame) : nat :=
  match df with
  | [] => 0%nat
  | (_, s) :: _ => length (values s)
  end.

(** The record at position [i]: what each column holds there. *)
Definition row (i : nat) (df : DataFrame) : list (string * option cell) :=
  map (fun '(name, s) => (name, values s !! i)) df.

(** Every column has one entry per record. *)
Definition aligned (df : DataFrame) : Prop :=
  Forall (fun '(_, s) => length (values s) = nrows df) df.

(** [df[name]] *)
Fixpoint getitem (df : DataFrame) (name : string) : result Series :=
  match df with
  | [] => raise KeyError
  | (n, s) :: df' => if String.eqb n name then ret s else getitem df' name
  end.

(** [df[name] = s]: the column is replaced where it stands, or added last. *)
Fixpoint setitem (df : DataFrame) (name : string) (s : Series) : DataFrame :=
  match df with
  | [] => [(name, s)]
  | (n, s0) :: df' =>
      if String.eqb n name then (n, s) :: df'
      else (n, s0) :: setitem df' name s
  end.

(** ** [.str.replace(pat, repl, regex=True)] for a one-character pattern

    [,] and [%] have no special meaning in a regular expression, so the
    call is [re.sub] of a literal character: every occurrence goes. *)
Fixpoint replace_char (pat : ascii) (repl : string) (s : string) : string :=
  match s with
  | EmptyString => EmptyString
  | String c s' =>
      if Ascii.eqb c pat then String.append repl (replace_char pat repl s')
      else String c (replace_char pat repl s')
  end.

(** On one element: text is rewritten, anything else becomes NaN. *)
Definition str_replace_cell (pat : ascii) (repl : string) (c : cell) : cell :=
  match c with
  | Str s => Str (replace_char pat repl s)
  | _ => nan
  end.

(** The [.str] accessor exists on object columns only. *)
Definition str_replace (pat : ascii) (repl : string) (s : Series)
  : result Series :=
  match dtype_of s with
  | object_ => ret (mkSeries object_ (map (str_replace_cell pat repl) (values s)))
  | _ => raise AttributeError
  end.

(** ** [.astype(int)] and [.astype(float)] on an object column *)

Definition int64_min : Z := - 2 ^ 63.
Definition int64_max : Z := 2 ^ 63 - 1.

Definition to_int64 (n : Z) : result Z :=
  if (int64_min <=? n) && (n <=? int64_max) then ret n
  else raise OverflowError.

(** [int(f)] on a float: towards zero. *)
Definition trunc_float (f : spec_float) : result Z :=
  match f with
  | S754_nan => raise ValueError
  | S754_infinity _ => raise OverflowError
  | S754_zero _ => ret 0
  | S754_finite s m e =>
      let a := if 0 <=? e then Z.shiftl (Zpos m) e else Z.shiftr (Zpos m) (- e) in
      ret (if s then - a else a)
  end.

Definition int_of_cell (c : cell) : result Z :=
  let* n := match c with
            | Str s => Py.int s
            | Int n => ret n
            | Flt f => trunc_float f
            end in
  to_int64 n.

Definition float_of_cell (c : cell) : result spec_float :=
  match c with
  | Str s => Py.float s
  | Int n => ret (binary_normalize prec emax n 0 false)
  | Flt f => ret f
  end.

(** Element by element, left to right; the first failure is the one raised. *)
Fixpoint mapM {A B} (f : A -> result B) (l : list A) : result (list B) :=
  match l with
  | [] => ret []
  | a :: l' => let* b := f a in let* bs := mapM f l' in ret (b :: bs)
  end.

Definition astype_int (s : Series) : result Series :=
  let* ns := mapM int_of_cell (values s) in
  ret (mkSeries int64 (map Int ns)).

Definition astype_float (s : Series) : result Series :=
  let* fs := mapM float_of_cell (values s) in
  ret (mkSeries float64 (map Flt fs)).

(** ** [.head(n)]: the slice [[:n]] *)

Definition slice_stop (n : Z) (len : nat) : nat :=
  if n <? 0 then Z.to_nat (Z.of_nat len + n) else Z.to_nat (Z.min n (Z.of_nat len)).

Definition head_list {A} (n : Z) (l : list A) : list A :=
  take (slice_stop n (length l)) l.

Definition head_series (n : Z) (s : Series) : Series :=
  mkSeries (dtype_of s) (head_list n (values s)).

Definition head (n : Z) (df : DataFrame) : DataFrame :=
  map (fun '(name, s) => (name, head_series n s)) df.

(** ** Hash-table equality of elements: NaN is one key. *)

Definition float_eqb (f g : spec_float) : bool :=
  match f, g with
  | S754_nan, S754_nan => true
  | _, _ => SFeqb f g
  end.

Definition cell_eqb (c d : cell) : bool :=
  match c, d with
  | Str s, Str t => String.eqb s t
  | Int n, Int m => n =? m
  | Flt f, Flt g => float_eqb f g
  | _, _ => false
  end.

(** [x in keys] for the hash table. *)
Definition member (c : cell) (keys : list cell) : bool :=
  existsb (cell_eqb c) keys.

(** ** [.unique()]: the distinct values in order of first appearance *)

Fixpoint unique_from (seen : list cell) (l : list cell) : list cell :=
  match l with
  | [] => seen
  | c :: l' => if member c seen then unique_from seen l'
               else unique_from (seen ++ [c]) l'
  end.

Definition unique (s : Series) : list cell := unique_from [] (values s).

(** ** [.isin(values)] and selection by a boolean mask *)

Definition isin (s : Series) (vals : list cell) : list bool :=
  map (fun c => member c vals) (values s).

Fixpoint select {A} (mask : list bool) (l : list A) : list A :=
  match mask, l with
  | b :: mask', a :: l' => if b then a :: select mask' l' else select mask' l'
  | _, _ => []
  end.

(** [df[mask]] *)
Definition getitem_mask (df : DataFrame) (mask : list bool) : DataFrame :=
  map (fun '(name, s) => (name, mkSeries (dtype_of s) (select mask (values s)))) df.

(** ** [.value_counts()]

    With the defaults [dropna=True, sort=True, ascending=False]: the hash
    table counts the values in order of first appearance, leaving NaN out;
    the counts are then sorted by [sort_values(ascending=False)], which is
    [nargsort] around [numpy.argsort(kind='quicksort')]. *)

Fixpoint bump (c : cell) (tab : list (cell * Z)) : list (cell * Z) :=
  match tab with
  | [] => [(c, 1)]
  | (k, n) :: tab' => if cell_eqb c k then (k, n + 1) :: tab'
                      else (k, n) :: bump c tab'
  end.

Fixpoint count_from (tab : list (cell * Z)) (l : list cell) : list (cell * Z) :=
  match l with
  | [] => tab
  | c :: l' => if isna c then count_from tab l' else count_from (bump c tab) l'
  end.

Definition value_count (l : list cell) : list (cell * Z) := count_from [] l.

Section Sorting.

(** [numpy.argsort(kind='quicksort')] on an integer array: the positions
    of the array in an order that sorts it.  Which of two equal entries
    comes first is not part of its contract. *)
Variable argsort : list Z -> list nat.

(** [a[indexer]] *)
Definition take_at {A} (a : list A) (indexer : list nat) : list A :=
  omap (fun i => a !! i) indexer.

(** [nargsort(items, kind, ascending=False)] for items without NaN. *)
Definition nargsort_desc (items : list Z) : list nat :=
  let idx := seq 0 (length items) in
  let non_nans := rev items in
  let non_nan_idx := rev idx in
  let indexer := take_at non_nan_idx (argsort non_nans) in
  rev indexer.

Definition sort_values_desc (tab : list (cell * Z)) : list (cell * Z) :=
  take_at tab (nargsort_desc (map snd tab)).

Definition value_counts (s : Series) : list (cell * Z) :=
  sort_values_desc (value_count (values s)).

End Sorting.

End Pd.

(* ===================================================================== *)
(** * numpy: the indirect quicksort *)
(* ===================================================================== *)

(** [numpy.argsort(kind='quicksort')] in its portable form,
    [aquicksort] of [npysort/quicksort]: an introsort over the array
    [tosort] of positions, which compares the keys [v[tosort[i]]].  A
    stretch of up to 17 positions is sorted by insertion; a longer one is
    split around the median of three; a stretch reached after more than
    [2 * floor(log2 num)] splits goes to the heap sort.  Pointers into
    [tosort] are offsets, as integers. *)

Module Np.

Section Keys.

Variable v : list Z.

Definition at_ (a : list nat) (p : Z) : nat := nth (Z.to_nat p) a 0%nat.
Definition key (a : list nat) (p : Z) : Z := nth (at_ a p) v 0.
Definition store (a : list nat) (p : Z) (x : nat) : list nat :=
  <[Z.to_nat p := x]> a.

(** [INTP_SWAP] of the two slots *)
Definition swap (a : list nat) (p q : Z) : list nat :=
  store (store a p (at_ a q)) q (at_ a p).

Definition swap_if_less (a : list nat) (p q : Z) : list nat :=
  if key a p <? key a q then swap a p q else a.

(** [do ++pi; while (key at pi < vp);] *)
Fixpoint scan_up (fuel : nat) (a : list nat) (vp : Z) (pi : Z) : Z :=
  let pi := pi + 1 in
  match fuel with
  | O => pi
  | S fuel' => if key a pi <? vp then scan_up fuel' a vp pi else pi
  end.

(** [do --pj; while (vp < key at pj);] *)
Fixpoint scan_down (fuel : nat) (a : list nat) (vp : Z) (pj : Z) : Z :=
  let pj := pj - 1 in
  match fuel with
  | O => pj
  | S fuel' => if vp <? key a pj then scan_down fuel' a vp pj else pj
  end.

(** The [for (;;)] of the split; it returns the array and [pi]. *)
Fixpoint split_loop (fuel : nat) (a : list nat) (vp : Z) (pi pj : Z)
  : list nat * Z :=
  let pi := scan_up (length a) a vp pi in
  let pj := scan_down (length a) a vp pj in
  if pi >=? pj then (a, pi)
  else match fuel with
       | O => (a, pi)
       | S fuel' => split_loop fuel' (swap a pi pj) vp pi pj
       end.

(** One split of [pl..pr]: median of three to [pm], pivot parked at
    [pr - 1], the scans, pivot moved to its place [pi]. *)
Definition split (a : list nat) (pl pr : Z) : list nat * Z :=
  let pm := pl + Z.shiftr (pr - pl) 1 in
  let a := swap_if_less a pm pl in
  let a := swap_if_less a pr pm in
  let a := swap_if_less a pm pl in
  let vp := key a pm in
  let pj := pr - 1 in
  let a := swap a pm pj in
  let '(a, pi) := split_loop (length a) a vp pl pj in
  (swap a pi (pr - 1), pi).

(** [while (pj > pl && vp < key at pk)]: the slot at [pk] moves up to [pj],
    both step down. *)
Fixpoint shift_up (fuel : nat) (a : list nat) (pl : Z) (vp : Z) (pj : Z)
  : list nat * Z :=
  match fuel with
  | O => (a, pj)
  | S fuel' =>
      if (pj >? pl) && (vp <? key a (pj - 1))
      then shift_up fuel' (store a pj (at_ a (pj - 1))) pl vp (pj - 1)
      else (a, pj)
  end.

Definition insert_at (pl : Z) (a : list nat) (pi : Z) : list nat :=
  let vi := at_ a pi in
  let vp := nth vi v 0 in
  let '(a, pj) := shift_up (length a) a pl vp pi in
  store a pj vi.

(** [for (pi = pl + 1; pi <= pr; ++pi)] *)
Definition insertion_sort (a : list nat) (pl pr : Z) : list nat :=
  fold_left (insert_at pl) (map (fun k => pl + 1 + Z.of_nat k)
                                (seq 0 (Z.to_nat (pr - pl)))) a.

(** Heap sort of the [n] positions from [pl]; the heap is indexed from
    one, [h k] being the offset of its [k]-th slot. *)
Section Heap.
Variable pl : Z.
Definition h (k : Z) : Z := pl + k - 1.

(** The sift: [tmp] sinks from slot [i], [j] being its first child. *)
Fixpoint sift (fuel : nat) (a : list nat) (tmp : nat) (n i j : Z) : list nat :=
  match fuel with
  | O => store a (h i) tmp
  | S fuel' =>
      if j <=? n then
        let j := if (j <? n) && (key a (h j) <? key a (h (j + 1)))
                 then j + 1 else j in
        if nth tmp v 0 <? key a (h j)
        then sift fuel' (store a (h i) (at_ a (h j))) tmp n j (j + j)
        else store a (h i) tmp
      else store a (h i) tmp
  end.

(** [for (l = n >> 1; l > 0; --l)] *)
Definition heapify (a : list nat) (n : Z) : list nat :=
  fold_left (fun a l => sift (length a) a (at_ a (h l)) n l (Z.shiftl l 1))
            (map (fun k => Z.shiftr n 1 - Z.of_nat k)
                 (seq 0 (Z.to_nat (Z.shiftr n 1)))) a.

(** [for (; n > 1;)] *)
Definition drain (a : list nat) (n : Z) : list nat :=
  fold_left (fun a n =>
               let tmp := at_ a (h n) in
               let a := store a (h n) (at_ a (h 1)) in
               sift (length a) a tmp (n - 1) 1 2)
            (map (fun k => n - Z.of_nat k) (seq 0 (Z.to_nat (n - 1)))) a.

Definition heapsort (a : list nat) (n : Z) : list nat :=
  drain (heapify a n) n.
End Heap.

Definition SMALL_QUICKSORT : Z := 16.

(** A pending stretch: its ends and the depth left for it. *)
Definition pending : Type := Z * Z * Z.

(** [while ((pr - pl) > SMALL_QUICKSORT)]: split, push the larger part,
    go on with the smaller. *)
Fixpoint split_while (fuel : nat) (a : list nat) (pl pr cdepth : Z)
    (stack : list pending) : list nat * Z * Z * Z * list pending :=
  match fuel with
  | O => (a, pl, pr, cdepth, stack)
  | S fuel' =>
      if pr - pl >? SMALL_QUICKSORT then
        let '(a, pi) := split a pl pr in
        let cdepth := cdepth - 1 in
        if pi - pl <? pr - pi
        then split_while fuel' a pl (pi - 1) cdepth ((pi + 1, pr, cdepth) :: stack)
        else split_while fuel' a (pi + 1) pr cdepth ((pl, pi - 1, cdepth) :: stack)
      else (a, pl, pr, cdepth, stack)
  end.

(** The [while (1)] with its stack. *)
Fixpoint run (fuel : nat) (a : list nat) (pl pr cdepth : Z)
    (stack : list pending) : list nat :=
  match fuel with
  | O => a
  | S fuel' =>
      let '(a, stack) :=
        if cdepth <? 0 then (heapsort pl a (pr - pl + 1), stack)
        else
          let '(a, pl, pr, _, stack) :=
            split_while (length a) a pl pr cdepth stack in
          (insertion_sort a pl pr, stack) in
      match stack with
      | [] => a
      | (pl, pr, cdepth) :: stack => run fuel' a pl pr cdepth stack
      end
  end.

Definition aquicksort (tosort : list nat) : list nat :=
  let num := Z.of_nat (length tosort) in
  run (S (length tosort)) tosort 0 (num - 1) (Z.log2 num * 2) [].

End Keys.

(** [v.argsort(kind='quicksort')] *)
Definition argsort (v : list Z) : list nat := aquicksort v (seq 0 (length v)).

End Np.

(* ===================================================================== *)
(** * Streamlit: inputs and [st.cache_data] *)
(* ===================================================================== *)

Module St.

Import Py Pd.

(** What [load_data] is called on: an uploaded file or a path.  [ident] is
    what [st.cache_data] hashes (the path text, or the identity of the
    upload); [read_csv] is the frame [pd.read_csv] parses from it. *)
Record source : Type := mkSource { ident : string; read_csv : DataFrame }.

(** The memo table of one [@st.cache_data] function.  A call whose argument
    is in the table returns the stored value; otherwise the function runs
    and its value is stored.  A call that raises stores nothing. *)
Definition cache_data (f : source -> result DataFrame)
    (memo : gmap string DataFrame) (src : source)
  : result DataFrame * gmap string DataFrame :=
  match memo !! ident src with
  | Some df => (ret df, memo)
  | None =>
      match f src with
      | inr df => (ret df, <[ident src := df]> memo)
      | inl e => (raise e, memo)
      end
  end.

(** How a run of the script ends early: an exception nobody catches, or a
    message followed by [st.stop()]. *)
Inductive halted : Type :=
| Raised (e : exn)
| Warned (msg : string)    (* st.warning(msg); st.stop() *)
| Errored (msg : string).  (* st.error(msg); st.stop() *)

End St.

(* ===================================================================== *)
(** * The script *)
(* ===================================================================== *)

Module Top100.

Import Py Pd St.
Local Open Scope py_scope.
Local Open Scope string_scope.

Definition revenue_col : string := "Revenue (USD millions)".
Definition growth_col : string := "Revenue growth".

(** [load_data], without its decorator. *)
Definition load_data (path_or_buffer : source) : result DataFrame :=
  let df := read_csv path_or_buffer in
  let* col := getitem df revenue_col in
  let* txt := str_replace "," "" col in
  let* num := astype_int txt in
  let df := setitem df revenue_col num in
  let* col := getitem df growth_col in
  let* txt := str_replace "%" "" col in
  let* num := astype_float txt in
  let df := setitem df growth_col num in
  ret df.

(** [@st.cache_data def load_data] *)
Definition cached_load_data := cache_data load_data.

Definition no_input_msg : string :=
  "Please upload the `Largest_Companies.csv` file to begin.".
Definition no_company_msg : string :=
  "Company name column not found. Please make sure your file contains a column like 'Name' or 'Company Name'.".

(** The choice of the input: the upload, else the default file when it
    exists, else a warning and a stop. *)
Definition load (uploaded_file default_file : option source)
    (memo : gmap string DataFrame)
  : (halted + DataFrame) * gmap string DataFrame :=
  match uploaded_file, default_file with
  | Some src, _ | None, Some src =>
      match cached_load_data memo src with
      | (inr df, memo') => (inr df, memo')
      | (inl e, memo') => (inl (Raised e), memo')
      end
  | None, None => (inl (Warned no_input_msg), memo)
  end.

(** The test of the [for] loop over [data.columns]. *)
Definition names_company (col : string) : bool :=
  contains "name" (lower col) || contains "company" (lower col).

(** The loop: the first column that passes, or [None]. *)
Fixpoint find_company_col (cols : list string) : option string :=
  match cols with
  | [] => None
  | col :: cols' => if names_company col then Some col else find_company_col cols'
  end.

(** [if not company_col]: [None] and the empty text are both false. *)
Definition company_col (data : DataFrame) : halted + string :=
  match find_company_col (columns data) with
  | Some (String c s) => inr (String c s)
  | Some EmptyString | None => inl (Errored no_company_msg)
  end.

(** [data.head(10)], shown on the first tab; [top_10] is the same slice. *)
Definition preview (data : DataFrame) : DataFrame := head 10 data.
Definition top_10 (data : DataFrame) : DataFrame := head 10 data.

(** [data[data["Industry"].isin(industries)]] *)
Definition filtered_data (data : DataFrame) (industries : list cell)
  : result DataFrame :=
  let* col := getitem data "Industry" in
  ret (getitem_mask data (isin col industries)).

(** The options of the multiselect, all selected by default. *)
Definition industry_options (data : DataFrame) : result (list cell) :=
  let* col := getitem data "Industry" in ret (unique col).

Section Sorting.

Variable argsort : list Z -> list nat.

(** [data['Headquarters'].value_counts().head(topK)] *)
Definition location_frequency (data : DataFrame) (topK : Z)
  : result (list (cell * Z)) :=
  let* col := getitem data "Headquarters" in
  ret (head_list topK (value_counts argsort col)).

Definition top_locations (data : DataFrame) : result (list (cell * Z)) :=
  location_frequency data 5.

(** What one run hands to the tables and charts.  [data.describe()] and
    the drawing calls are left out. *)
Record views : Type := mkViews {
  v_company_col : string;
  v_preview : DataFrame;
  v_filtered : DataFrame;
  v_top_10 : DataFrame;
  v_top_locations : list (cell * Z)
}.

Definition lift {A} (m : result A) : halted + A :=
  match m with
  | inl e => inl (Raised e)
  | inr a => inr a
  end.

(** The tabs, once [data] is loaded.  [selection] is what the user left
    selected in the multiselect, [None] standing for the default. *)
Definition render (data : DataFrame) (selection : option (list cell))
  : halted + views :=
  match company_col data with
  | inl h => inl h
  | inr name =>
      match lift (industry_options data) with
      | inl h => inl h
      | inr options =>
          let industries := default options selection in
          match lift (filtered_data data industries) with
          | inl h => inl h
          | inr filtered =>
              match lift (top_locations data) with
              | inl h => inl h
              | inr locs =>
                  inr (mkViews name (preview data) (head 10 filtered)
                               (top_10 data) locs)
              end
          end
      end
  end.

(** One run of the script. *)
Definition run (uploaded_file default_file : option source)
    (selection : option (list cell)) (memo : gmap string DataFrame)
  : (halted + views) * gmap string DataFrame :=
  match load uploaded_file default_file memo with
  | (inl h, memo') => (inl h, memo')
  | (inr data, memo') => (render data selection, memo')
  end.

End Sorting.

End Top100.

(* ===================================================================== *)
(** * The vocabulary of the specification *)
(* ===================================================================== *)

Module Spec.

Import Py Pd St Top100.
Local Open Scope string_scope.

Definition SchemaError (h : halted) : Prop := h = Errored no_company_msg.
Definition MissingInputError (h : halted) : Prop := h = Warned no_input_msg.

(** A text without every occurrence of one character. *)
Definition remove_all (c : ascii) (s : string) : string :=
  string_of_list_ascii
    (List.filter (fun x => negb (Ascii.eqb x c)) (list_ascii_of_string s)).

Definition has_char (c : ascii) (s : string) : Prop :=
  In c (list_ascii_of_string s).

(** [sub] occurs somewhere in [s]. *)
Definition occurs_in (sub s : string) : Prop :=
  exists a b, s = String.append a (String.append sub b).

(** The capital of a small letter. *)
Definition capital (l : ascii) : ascii := ascii_of_nat (nat_of_ascii l - 32).

(** [w] is the word [word], given in small letters, with each letter small
    or capital. *)
Definition spells (word w : string) : Prop :=
  Forall2 (fun l c => c = l \/ c = capital l)
          (list_ascii_of_string word) (list_ascii_of_string w).

(** [word] occurs somewhere in [s], in whatever case. *)
Definition occurs_in_any_case (word s : string) : Prop :=
  exists a w b, s = String.append a (String.append w b) /\ spells word w.

(** A column name that, lowercased, contains "name" or "company". *)
Definition names_a_company (col : string) : Prop :=
  occurs_in_any_case "name" col \/ occurs_in_any_case "company" col.

(** The finite float [f] is exactly the fraction [n / d]. *)
Definition float_is (f : spec_float) (n d : Z) : Prop :=
  match f with
  | S754_zero _ => n = 0
  | S754_finite s m e =>
      let sm := if s then Zneg m else Zpos m in
      if (0 <=? e)%Z then sm * 2 ^ e * d = n else sm * d = n * 2 ^ (- e)
  | _ => False
  end.

Definition in_int64 (n : Z) : Prop := - 2 ^ 63 <= n <= 2 ^ 63 - 1.

(** A headquarters (or industry) that is there: not a missing value. *)
Definition present (c : cell) : bool := negb (isna c).

(** The number of records whose column [s] holds a value. *)
Definition count_present (s : Series) : Z :=
  Z.of_nat (length (List.filter present (values s))).

(** The number of distinct values that occur in the column. *)
Definition distinct_present (s : Series) : nat :=
  length (unique_from [] (List.filter present (values s))).

(** Where a value first appears in a column; the length when it does not. *)
Fixpoint first_pos (k : cell) (l : list cell) : nat :=
  match l with
  | [] => 0%nat
  | c :: l' => if cell_eqb k c then 0%nat else S (first_pos k l')
  end.

Definition sum_counts (r : list (cell * Z)) : Z :=
  fold_right Z.add 0 (map snd r).




(** ** What [numpy.argsort] promises, and what it does not *)

(** The promise, on the array [v]: the result lists every position once,
    keys in ascending order. *)
Definition sorts (argsort : list Z -> list nat) (v : list Z) : Prop :=
  argsort v ≡ₚ seq 0 (length v) /\
  forall a b i j,
    (a < b)%nat -> argsort v !! a = Some i -> argsort v !! b = Some j ->
    nth i v 0 <= nth j v 0.

(** On the array [v], equal keys stay in their order: a stable sort does
    this on every array, a quicksort on some. *)
Definition keeps_ties (argsort : list Z -> list nat) (v : list Z) : Prop :=
  forall a b i j,
    (a < b)%nat -> argsort v !! a = Some i -> argsort v !! b = Some j ->
    nth i v 0 = nth j v 0 -> (i < j)%nat.

(** Position [i] goes before position [j] in the stable order of [v]. *)
Definition key_lt (v : list Z) (i j : nat) : Prop :=
  nth i v 0 < nth j v 0 \/ (nth i v 0 = nth j v 0 /\ (i < j)%nat).

(** On the array [v] the sort is the stable one. *)
Definition stable_at (argsort : list Z -> list nat) (v : list Z) : Prop :=
  argsort v ≡ₚ seq 0 (length v) /\ StronglySorted (key_lt v) (argsort v).

(** The array that [value_counts] hands to [argsort] for a column: the
    counts of its values, last value first. *)
Definition sort_input (s : Series) : list Z :=
  rev (map snd (value_count (values s))).

(** ** The vocabulary of the quicksort *)








(** ** Inputs *)

Definition text (l : list string) : Series := mkSeries object_ (map Str l).

Definition csv (name revenue growth industry headquarters : list string)
  : DataFrame :=
  [("Name", text name);
   (revenue_col, text revenue);
   (growth_col, text growth);
   ("Industry", text industry);
   ("Headquarters", text headquarters)].

(** The two-row scenario of the specification. *)
Definition two_companies : source :=
  mkSource "Largest_Companies.csv"
    (csv ["Acme"; "Globex"] ["1,000,000"; "500,000"] ["5.0%"; "-2.5%"]
         ["Tech"; "Retail"] ["New York"; "London"]).

Definition round_trip : source :=
  mkSource "round_trip.csv"
    (csv ["Acme"] ["1,234,567"] ["12.5%"] ["Tech"] ["New York"]).

Definition letters_for_revenue : source :=
  mkSource "abc.csv"
    (csv ["Acme"; "Globex"] ["1,000"; "abc"] ["5.0%"; "1%"]
         ["Tech"; "Retail"] ["New York"; "London"]).


Definition negative_revenue : source :=
  mkSource "negative.csv"
    (csv ["Acme"; "Globex"] ["-5"; "1,000"] ["5.0%"; "1%"]
         ["Tech"; "Retail"] ["New York"; "London"]).



(** A frame whose second record has an empty headquarters field. *)
Definition missing_headquarters : DataFrame :=
  [("Name", text ["Acme"; "Globex"]);
   (revenue_col, mkSeries int64 [Int 1000; Int 500]);
   (growth_col, mkSeries float64 [Flt (S754_zero false); Flt (S754_zero false)]);
   ("Industry", text ["Tech"; "Retail"]);
   ("Headquarters", mkSeries object_ [Str "New York"; nan])].



(** ** More vocabulary, for the facts beyond the specification *)

(** The number of records of a column that hold the value [k]. *)
Definition occurrences (k : cell) (l : list cell) : Z :=
  Z.of_nat (length (List.filter (fun c => cell_eqb c k) l)).

(** The positions of the records of a column whose value is among [vals],
    in ascending order. *)
Definition positions_in (s : Series) (vals : list cell) : list nat :=
  List.filter (fun i => match values s !! i with
                        | Some c => member c vals
                        | None => false
                        end)
              (seq 0 (length (values s))).

(** A record without any value: what a table shows past its end. *)
Definition no_record (df : DataFrame) : list (string * option cell) :=
  map (fun '(name, _) => (name, None)) df.

(** The characters of which an integer numeral can be made: white space,
    the two signs, the digits and the underscore. *)
Definition int_char (c : ascii) : bool :=
  is_space c || Ascii.eqb c "+" || Ascii.eqb c "-" || is_digit c || Ascii.eqb c "_".

(** The characters of which a float numeral can be made: those of an
    integer numeral, the point, and the letters of [e], [inf], [infinity]
    and [nan], small or capital. *)
Definition float_char (c : ascii) : bool :=
  int_char c || Ascii.eqb c "." ||
  existsb (Ascii.eqb (lower_char c)) ["e"; "i"; "n"; "f"; "t"; "y"; "a"]%char.

(** The same for the code points of a text: below 127 they are the
    characters above; from there on, the white space and the decimal digits
    of Unicode. *)
Definition numeral_beyond_ascii (ch : Z) : bool :=
  unicode_isspace ch ||
  match unicode_todecimal ch with Some _ => true | None => false end.

Definition int_point (ch : Z) : bool :=
  if (ch <? 127)%Z then int_char (ascii_of ch) else numeral_beyond_ascii ch.

Definition float_point (ch : Z) : bool :=
  if (ch <? 127)%Z then float_char (ascii_of ch) else numeral_beyond_ascii ch.

(** Every frame in the memo table is what [load_data] made of some source
    of that identity. *)
Definition memo_sound (memo : gmap string DataFrame) : Prop :=
  forall k df, memo !! k = Some df ->
    exists src, ident src = k /\ load_data src = inr df.

(** The source that a run loads: the upload when there is one, else the
    default file. *)
Definition chosen (uploaded_file default_file : option source) : option source :=
  match uploaded_file with
  | Some src => Some src
  | None => default_file
  end.

(** The names of the columns with the number of entries of each. *)
Definition shape (df : DataFrame) : list (string * nat) :=
  map (fun '(name, s) => (name, length (values s))) df.

(** Headers in capitals, with two columns that could name the company. *)
Definition capital_headers : DataFrame :=
  [("RANK", text ["1"; "2"]);
   ("FULL NAME", text ["Acme Corporation"; "Globex Corporation"]);
   ("Company", text ["Acme"; "Globex"])].

(** Headers of which none names a company. *)
Definition no_company_header : DataFrame :=
  [("Rank", text ["1"; "2"]);
   ("Firm", text ["Acme"; "Globex"]);
   ("Industry", text ["Tech"; "Retail"])].

(** Numerals beyond ASCII: a revenue followed by a no-break space
    (U+00A0), one in Arabic-Indic digits (U+0661 U+0662 U+0663), and a
    growth in the same digits (U+0663, a point, U+0665). *)
Definition no_break_space : string := String "194" (String "160" "").
Definition arabic_123 : string :=
  String "217" (String "161" (String "217" (String "162"
    (String "217" (String "163" ""))))).
Definition arabic_3_5 : string :=
  String "217" (String "163" (String "."
    (String "217" (String "165" "")))).

Definition numerals_beyond_ascii : source :=
  mkSource "unicode.csv"
    (csv ["Acme"; "Globex"]
         [String.append "1,000" no_break_space; arabic_123]
         [String.append "5.0%" no_break_space; String.append arabic_3_5 "%"]
         ["Tech"; "Retail"] ["New York"; "London"]).



(** A file whose second record has an empty growth field. *)
Definition missing_growth : source :=
  mkSource "missing_growth.csv"
    [("Name", text ["Acme"; "Globex"]);
     (revenue_col, text ["1,000"; "500"]);
     (growth_col, mkSeries object_ [Str "5%"; nan]);
     ("Industry", text ["Tech"; "Retail"]);
     ("Headquarters", text ["New York"; "London"])].

End Spec.


(* ===================================================================== *)
(** * Facts about the built-ins *)
(* ===================================================================== *)

Module PyFacts.
Import Py Pd Spec.

Lemma replace_char_remove_all c s : replace_char c EmptyString s = remove_all c s.
Proof.
  unfold remove_all. induction s as [|x s IH]; simpl; [done|].
  destruct (Ascii.eqb x c); simpl; by rewrite IH.
Qed.





Lemma digit_value_nonneg c : is_digit c = true -> 0 <= digit_value c <= 9.
Proof.
  unfold is_digit, digit_value. intros H.
  apply andb_prop in H as [?%Z.leb_le ?%Z.leb_le]. lia.
Qed.

Lemma scan_digits_nonneg s : forall us acc d n d' rest,
  scan_digits us acc d s = Some (n, d', rest) -> 0 <= acc -> 0 <= n.
Proof.
  induction s as [|c s IH]; simpl; intros us acc d n d' rest H Hacc.
  - destruct us; naive_solver.
  - destruct (is_digit c) eqn:Hd.
    + eapply IH; [done|]. pose proof (digit_value_nonneg c Hd). lia.
    + destruct (Ascii.eqb c "_"); destruct us; try done; naive_solver.
Qed.

Lemma has_char_skip_space c s : has_char c (skip_space s) -> has_char c s.
Proof.
  unfold has_char. induction s as [|x s IH]; simpl; [done|].
  destruct (is_space x); simpl; tauto.
Qed.

Lemma byte_inj c d : byte c = byte d -> c = d.
Proof.
  unfold byte. intros H%Nat2Z.inj.
  rewrite <- (ascii_nat_embedding c), <- (ascii_nat_embedding d). by rewrite H.
Qed.

Lemma byte_range c : 0 <= byte c < 256.
Proof. unfold byte. pose proof (nat_ascii_bounded c). lia. Qed.

Lemma continuation_Some c x : continuation c = Some x -> 128 <= byte c.
Proof.
  unfold continuation. destruct (128 <=? byte c) eqn:E; [|done].
  intros _. by apply Z.leb_le.
Qed.

Lemma well_formed_least least ch : well_formed least ch = true -> least <= ch.
Proof.
  unfold well_formed. intros [[H _]%andb_prop _]%andb_prop. by apply Z.leb_le.
Qed.


Lemma list_of_fold_String k s :
  list_ascii_of_string (fold_right String s k) = (k ++ list_ascii_of_string s)%list.
Proof. induction k as [|c k IH]; simpl; [done|]. by rewrite IH. Qed.

(** How a text is read: byte by byte where it is ASCII, and else a
    sequence of bytes beyond ASCII for a code point beyond ASCII. *)
Lemma code_points_ind (P : string -> list Z -> Prop) :
  P EmptyString [] ->
  (forall c s chs,
      byte c < 128 -> code_points s = Some chs -> P s chs ->
      P (String c s) (byte c :: chs)) ->
  (forall k s ch chs,
      128 <= ch <= 1114111 -> Forall (fun x => 128 <= byte x) k ->
      (forall r, code_points (fold_right String r k)
                 = option_map (cons ch) (code_points r)) ->
      code_points s = Some chs -> P s chs ->
      P (fold_right String s k) (ch :: chs)) ->
  forall s chs, code_points s = Some chs -> P s chs.
Proof.
  intros Hnil Hone Hmany s.
  remember (String.length s) as n eqn:Hn. revert s Hn.
  induction n as [n IH] using lt_wf_ind. intros s Hn chs H.
  destruct s as [|c0 s1]; [by injection H as <-|].
  cbn [code_points] in H. simpl in Hn.
  destruct (byte c0 <? 128) eqn:Hlt128.
  { destruct (code_points s1) as [chs'|] eqn:E; [|done]. injection H as <-.
    apply Z.ltb_lt in Hlt128. apply Hone; [done..|].
    apply (IH (String.length s1)); [lia|done..]. }
  pose proof (proj1 (Z.ltb_ge _ _) Hlt128) as H0.
  destruct (byte c0 <? 192) eqn:Hlt192; [done|].
  assert (Hwf : forall least ch, 128 <= least -> well_formed least ch = true ->
                                 128 <= ch <= 1114111).
  { unfold well_formed. intros least ch Hl [[?%Z.leb_le ?%Z.leb_le]%andb_prop _]%andb_prop.
    lia. }
  destruct (byte c0 <? 224) eqn:Hlt224.
  { destruct s1 as [|c1 s2]; [done|].
    destruct (continuation c1) as [x1|] eqn:E1; [|done].
    destruct (well_formed 128 _) eqn:W; [|done].
    destruct (code_points s2) as [chs'|] eqn:E; [|done]. injection H as <-.
    apply (Hmany [c0; c1] s2); [apply (Hwf 128); [lia|done]| | |done|].
    - repeat constructor; [lia | by eapply continuation_Some].
    - intros r. cbn [fold_right code_points]. by rewrite Hlt128, Hlt192, Hlt224, E1, W.
    - apply (IH (String.length s2)); [simpl in Hn; lia|done..]. }
  destruct (byte c0 <? 240) eqn:Hlt240.
  { destruct s1 as [|c1 [|c2 s3]]; [done..|].
    destruct (continuation c1) as [x1|] eqn:E1; [|done].
    destruct (continuation c2) as [x2|] eqn:E2; [|done].
    destruct (well_formed 2048 _) eqn:W; [|done].
    destruct (code_points s3) as [chs'|] eqn:E; [|done]. injection H as <-.
    apply (Hmany [c0; c1; c2] s3); [apply (Hwf 2048); [lia|done]| | |done|].
    - repeat constructor; [lia | by eapply continuation_Some..].
    - intros r. cbn [fold_right code_points].
      by rewrite Hlt128, Hlt192, Hlt224, Hlt240, E1, E2, W.
    - apply (IH (String.length s3)); [simpl in Hn; lia|done..]. }
  destruct (byte c0 <? 248) eqn:Hlt248; [|done].
  destruct s1 as [|c1 [|c2 [|c3 s4]]]; [done..|].
  destruct (continuation c1) as [x1|] eqn:E1; [|done].
  destruct (continuation c2) as [x2|] eqn:E2; [|done].
  destruct (continuation c3) as [x3|] eqn:E3; [|done].
  destruct (well_formed 65536 _) eqn:W; [|done].
  destruct (code_points s4) as [chs'|] eqn:E; [|done]. injection H as <-.
  apply (Hmany [c0; c1; c2; c3] s4); [apply (Hwf 65536); [lia|done]| | |done|].
  - repeat constructor; [lia | by eapply continuation_Some..].
  - intros r. cbn [fold_right code_points].
    by rewrite Hlt128, Hlt192, Hlt224, Hlt240, Hlt248, E1, E2, E3, W.
  - apply (IH (String.length s4)); [simpl in Hn; lia|done..].
Qed.

(** An ASCII byte of a text is a code point of it, and the other way
    round. *)
Lemma code_points_In s chs c :
  code_points s = Some chs -> byte c < 128 ->
  In c (list_ascii_of_string s) <-> In (byte c) chs.
Proof.
  intros H Hc. revert s chs H. apply code_points_ind.
  - done.
  - intros c0 s chs H0 _ IH. simpl. rewrite IH.
    split; (intros [Heq|Hin]; [left|by right]); [by subst|by apply byte_inj].
  - intros k s ch chs Hch Hk _ _ IH. rewrite list_of_fold_String, in_app_iff.
    simpl. rewrite IH. rewrite List.Forall_forall in Hk. split.
    + intros [Hin|Hin]; [|by right]. specialize (Hk _ Hin). lia.
    + intros [Heq|Hin]; [lia|by right].
Qed.

Lemma code_points_range s chs :
  code_points s = Some chs -> Forall (fun ch => 0 <= ch <= 1114111) chs.
Proof.
  revert s chs.
  apply (code_points_ind (fun _ chs => Forall (fun ch => 0 <= ch <= 1114111) chs)).
  - constructor.
  - intros c s chs Hc _ IH. constructor; [|done]. pose proof (byte_range c). lia.
  - intros k s ch chs Hch _ _ _ IH. constructor; [lia|done].
Qed.

(** An ASCII text is its own code points. *)
Lemma code_points_all_ascii s chs :
  code_points s = Some chs -> forallb (fun ch => ch <? 128) chs = true ->
  chs = map byte (list_ascii_of_string s).
Proof.
  revert s chs.
  apply (code_points_ind (fun s chs =>
           forallb (fun ch => ch <? 128) chs = true ->
           chs = map byte (list_ascii_of_string s))).
  - done.
  - intros c s chs Hc _ IH [_ Hall]%andb_prop. simpl. f_equal. by apply IH.
  - intros k s ch chs Hch _ _ _ _ [?%Z.ltb_lt _]%andb_prop. lia.
Qed.

Lemma remove_all_fold_String c k s :
  Forall (fun x => x <> c) k ->
  remove_all c (fold_right String s k) = fold_right String (remove_all c s) k.
Proof.
  rewrite <- !replace_char_remove_all.
  induction 1 as [|x k Hx _ IH]; simpl; [done|].
  destruct (Ascii.eqb_spec x c); [done|]. by rewrite IH.
Qed.

(** Taking an ASCII character out of a text takes its code point out. *)
Lemma code_points_remove_all c s chs :
  byte c < 128 -> code_points s = Some chs ->
  code_points (remove_all c s)
  = Some (List.filter (fun ch => negb (ch =? byte c)) chs).
Proof.
  intros Hc. revert s chs. apply code_points_ind.
  - done.
  - intros c0 s chs H0 _ IH. rewrite <- replace_char_remove_all. simpl.
    rewrite replace_char_remove_all.
    destruct (Ascii.eqb_spec c0 c) as [->|Hne].
    + by rewrite Z.eqb_refl.
    + destruct (Z.eqb_spec (byte c0) (byte c)) as [Heq%byte_inj|_]; [done|].
      simpl. cbn [code_points].
      apply Z.ltb_lt in H0. by rewrite H0, IH.
  - intros k s ch chs Hch Hk Hdec _ IH.
    rewrite remove_all_fold_String, Hdec, IH.
    + simpl. destruct (Z.eqb_spec ch (byte c)); [lia|done].
    + eapply Forall_impl; [done|]. simpl. intros x Hx ->. lia.
Qed.

Lemma ascii_of_byte c : ascii_of (byte c) = c.
Proof. unfold ascii_of, byte. rewrite Nat2Z.id. apply ascii_nat_embedding. Qed.

Lemma byte_ascii_of ch : 0 <= ch < 256 -> byte (ascii_of ch) = ch.
Proof.
  intros H. unfold ascii_of, byte. rewrite nat_ascii_embedding by lia. lia.
Qed.

Lemma unicode_todecimal_range ch d : unicode_todecimal ch = Some d -> 0 <= d <= 9.
Proof.
  unfold unicode_todecimal.
  destruct ((48 <=? ch) && (ch <=? 57)) eqn:E.
  - intros [= <-]. apply andb_prop in E as [?%Z.leb_le ?%Z.leb_le]. lia.
  - destruct (List.find _ decimal_zeros) as [z|] eqn:F; [|done]. intros [= <-].
    apply find_some in F as [_ [?%Z.leb_le ?%Z.leb_le]%andb_prop]. lia.
Qed.

Lemma is_digit_ascii_of d : 0 <= d <= 9 -> is_digit (ascii_of (48 + d)) = true.
Proof.
  intros H. unfold is_digit. change (Z.of_nat (nat_of_ascii (ascii_of (48 + d))))
    with (byte (ascii_of (48 + d))).
  rewrite byte_ascii_of by lia. apply andb_true_intro. split; apply Z.leb_le; lia.
Qed.

(** What [to_ascii] puts in place of a text beyond ASCII: the characters
    below 127 that the text has, blanks, digits, and a question mark. *)
Lemma transform_In chs c :
  Forall (fun ch => 0 <= ch) chs ->
  In c (list_ascii_of_string (transform chs)) ->
  (byte c < 127 /\ In (byte c) chs) \/
  c = " "%char \/ is_digit c = true \/ c = "?"%char.
Proof.
  induction 1 as [|ch chs Hch _ IH]; simpl; [done|].
  destruct (ch <? 127) eqn:H1.
  - simpl. intros [<-|Hin].
    + apply Z.ltb_lt in H1. left. rewrite byte_ascii_of by lia. auto.
    + destruct (IH Hin) as [[? ?]|?]; auto.
  - destruct (unicode_isspace ch).
    + simpl. intros [<-|Hin]; [auto|]. destruct (IH Hin) as [[? ?]|?]; auto.
    + destruct (unicode_todecimal ch) as [d|] eqn:Hd; simpl.
      * intros [<-|Hin].
        -- right. right. left. apply is_digit_ascii_of.
           by eapply unicode_todecimal_range.
        -- destruct (IH Hin) as [[? ?]|?]; auto.
      * intros [<-|[]]. auto.
Qed.

Lemma to_ascii_In s t c :
  to_ascii s = Some t -> In c (list_ascii_of_string t) ->
  In c (list_ascii_of_string s) \/
  c = " "%char \/ is_digit c = true \/ c = "?"%char.
Proof.
  unfold to_ascii. destruct (code_points s) as [chs|] eqn:E; [|done].
  destruct (forallb _ chs); intros [= <-] Hin; [by left|].
  apply transform_In in Hin as [[Hc Hin]|?]; [|by right|].
  - left. apply (code_points_In s chs c E); [lia|done].
  - eapply Forall_impl; [by eapply code_points_range|]. simpl. lia.
Qed.

(** A numeral without a minus sign is not negative. *)
Lemma long_from_string_unsigned s n :
  long_from_string s = Some n -> ~ has_char "-" s -> 0 <= n.
Proof.
  unfold long_from_string. intros H Hno.
  assert (Hno' : ~ has_char "-" (skip_space s)) by (intros ?; by apply Hno, has_char_skip_space).
  destruct (skip_space s) as [|c t] eqn:E; [done|].
  assert (Hc : c <> "-"%char) by (intros ->; apply Hno'; by left).
  assert (exists body, split_sign (String c t) = (false, body)) as [body Hb].
  { unfold split_sign. destruct c as [[] [] [] [] [] [] [] []]; eauto; done. }
  rewrite Hb in H. destruct (starts_with_digit body); [|done].
  destruct (scan_digits false 0 0 body) as [[[m d] rest]|] eqn:Es; [|done].
  destruct (d <=? max_str_digits); [|done].
  destruct (skip_space rest); [|done]. inversion H; subst.
  eapply scan_digits_nonneg; [done|lia].
Qed.

Lemma parse_int_unsigned s n :
  parse_int s = Some n -> ~ has_char "-" s -> 0 <= n.
Proof.
  unfold parse_int. destruct (to_ascii s) as [t|] eqn:E; [|done]. intros H Hno.
  apply (long_from_string_unsigned t n H). intros Hin.
  destruct (to_ascii_In s t "-" E Hin) as [?|[?|[?|?]]]; done.
Qed.

Lemma prefix_occurs sub s :
  String.prefix sub s = true <-> exists b, s = String.append sub b.
Proof.
  revert s. induction sub as [|c sub IH]; intros s; simpl.
  - destruct s; (split; [eauto | done]).
  - destruct s as [|d s]; [split; [done | by intros [? ?]]|]. simpl.
    destruct (ascii_dec c d) as [->|Hne]; simpl.
    + rewrite IH. split; intros [b Hb]; exists b.
      * by subst.
      * change (String d s = String d (sub +:+ b)) in Hb. congruence.
    + split; [done|]. intros [b Hb].
      change (String d s = String c (sub +:+ b)) in Hb. congruence.
Qed.

Lemma contains_nil sub : contains sub EmptyString = String.prefix sub EmptyString.
Proof. apply orb_false_r. Qed.

Lemma contains_cons sub c s :
  contains sub (String c s) = String.prefix sub (String c s) || contains sub s.
Proof. reflexivity. Qed.

(** [contains] is the substring relation. *)
Lemma contains_occurs sub s : contains sub s = true <-> occurs_in sub s.
Proof.
  unfold occurs_in. split.
  - induction s as [|c s IH].
    + rewrite contains_nil. intros [b ->]%prefix_occurs. by exists EmptyString, b.
    + rewrite contains_cons, orb_true_iff. intros [H|H].
      * apply prefix_occurs in H as [b Hb]. by exists EmptyString, b.
      * destruct (IH H) as (a & b & ->). by exists (String c a), b.
  - intros (a & b & ->). induction a as [|c a IH].
    + assert (H : String.prefix sub (String.append sub b) = true)
        by (apply prefix_occurs; eauto).
      change (EmptyString +:+ sub +:+ b) with (sub +:+ b).
      destruct (sub +:+ b); [by rewrite contains_nil | by rewrite contains_cons, H].
    + change (String c a +:+ sub +:+ b) with (String c (a +:+ sub +:+ b)).
      rewrite contains_cons, IH. apply orb_true_r.
Qed.

(** ** Lowercasing *)

Lemma lower_append a b : lower (a +:+ b) = lower a +:+ lower b.
Proof.
  induction a as [|c a IH]; [done|].
  change (String (lower_char c) (lower (a +:+ b))
          = String (lower_char c) (lower a +:+ lower b)).
  by rewrite IH.
Qed.

Lemma lower_split s : forall x y,
  lower s = x +:+ y -> exists s1 s2, s = s1 +:+ s2 /\ lower s1 = x /\ lower s2 = y.
Proof.
  induction s as [|c s IH]; intros x y H.
  - destruct x; [|done]. change (EmptyString = y) in H. subst y.
    by exists EmptyString, EmptyString.
  - destruct x as [|d x].
    + change (lower (String c s) = y) in H. subst y.
      by exists EmptyString, (String c s).
    + change (String (lower_char c) (lower s) = String d (x +:+ y)) in H.
      injection H as Hd H.
      destruct (IH _ _ H) as (s1 & s2 & -> & <- & <-).
      exists (String c s1), s2. repeat split. simpl. by rewrite Hd.
Qed.

(** A character is lowercased to a small letter when it is that letter or
    its capital, and then only. *)
Lemma lower_char_spec l c :
  (97 <= nat_of_ascii l <= 122)%nat ->
  lower_char c = l <-> c = l \/ c = capital l.
Proof.
  intros Hl. unfold lower_char, capital.
  pose proof (nat_ascii_bounded c) as Hc.
  destruct ((65 <=? nat_of_ascii c) && (nat_of_ascii c <=? 90))%nat eqn:E.
  - apply andb_prop in E as [H1%Nat.leb_le H2%Nat.leb_le]. split.
    + intros H. right.
      assert (Hn : (nat_of_ascii c + 32 = nat_of_ascii l)%nat).
      { rewrite <- H. rewrite nat_ascii_embedding; lia. }
      replace (nat_of_ascii l - 32)%nat with (nat_of_ascii c) by lia.
      by rewrite ascii_nat_embedding.
    + intros [-> | ->]; [lia|].
      rewrite nat_ascii_embedding in * by lia.
      replace (nat_of_ascii l - 32 + 32)%nat with (nat_of_ascii l) by lia.
      apply ascii_nat_embedding.
  - split; [by left|]. intros [-> | ->]; [done|].
    rewrite nat_ascii_embedding in E by lia.
    apply andb_false_iff in E as [E|E]; apply Nat.leb_gt in E; lia.
Qed.

Lemma lower_spells word : forall w,
  Forall (fun l => 97 <= nat_of_ascii l <= 122)%nat (list_ascii_of_string word) ->
  lower w = word <-> spells word w.
Proof.
  unfold spells. induction word as [|l word IH]; intros w Hw.
  - destruct w; simpl; split; try done. inversion 1.
  - simpl in Hw. inversion Hw as [|? ? Hl Hw']; subst.
    destruct w as [|c w]; simpl; [split; [done | inversion 1]|]. split.
    + intros [= Hc Hrest]. constructor; [by apply lower_char_spec | by apply IH].
    + inversion 1 as [|? ? ? ? Hc Hrest]; subst. f_equal.
      * by apply lower_char_spec.
      * by apply IH.
Qed.

(** A word of small letters occurs in the lowercased text when it occurs
    in the text in some case. *)
Lemma occurs_in_lower word s :
  Forall (fun l => 97 <= nat_of_ascii l <= 122)%nat (list_ascii_of_string word) ->
  occurs_in word (lower s) <-> occurs_in_any_case word s.
Proof.
  intros Hw. unfold occurs_in, occurs_in_any_case. split.
  - intros (a & b & H).
    apply lower_split in H as (s1 & s2 & -> & <- & H).
    apply lower_split in H as (w & s3 & -> & H & <-).
    exists s1, w, s3. split; [done|]. by apply lower_spells.
  - intros (a & w & b & -> & H). apply lower_spells in H; [|done].
    exists (lower a), (lower b). by rewrite !lower_append, H.
Qed.

End PyFacts.

Module PdFacts.
Import Py Pd Spec.
Local Open Scope py_scope.

Lemma getitem_setitem_eq df name s : getitem (setitem df name s) name = inr s.
Proof.
  induction df as [|[n s0] df IH]; simpl.
  - by rewrite String.eqb_refl.
  - destruct (String.eqb n name) eqn:E; simpl; by rewrite E.
Qed.

Lemma getitem_setitem_ne df name name' s :
  name <> name' -> getitem (setitem df name s) name' = getitem df name'.
Proof.
  intros Hne. induction df as [|[n s0] df IH]; simpl.
  - by destruct (String.eqb_spec name name').
  - destruct (String.eqb_spec n name) as [->|]; simpl.
    + by destruct (String.eqb_spec name name').
    + by rewrite IH.
Qed.

Lemma bind_inr {A B} (m : result A) (k : A -> result B) b :
  bind m k = inr b -> exists a, m = inr a /\ k a = inr b.
Proof. destruct m; [done | eauto]. Qed.

Lemma str_replace_inr pat repl s t :
  str_replace pat repl s = inr t ->
  dtype_of s = object_ /\ t = mkSeries object_ (map (str_replace_cell pat repl) (values s)).
Proof. unfold str_replace, ret, raise. destruct (dtype_of s); intros; simplify_eq; done. Qed.

(** [mapM] succeeds exactly when every element does. *)
Lemma mapM_inr {A B} (f : A -> result B) l bs :
  mapM f l = inr bs <-> Forall2 (fun a b => f a = inr b) l bs.
Proof.
  revert bs. induction l as [|a l IH]; simpl; intros bs.
  - split; [intros [= <-]; constructor | by inversion 1].
  - unfold bind, ret. split.
    + destruct (f a) as [|b] eqn:Ea; [done|].
      destruct (mapM f l) as [|bs'] eqn:El; [done|].
      intros [= <-]. constructor; [done|]. by apply IH.
    + inversion 1 as [|? b ? bs' Ha Hl]; subst. rewrite Ha.
      apply IH in Hl. by rewrite Hl.
Qed.



Lemma float_eqb_refl f : float_eqb f f = true.
Proof.
  destruct f as [s|s| |s m e]; try done; unfold float_eqb, SFeqb; simpl.
  - by destruct s.
  - destruct s; rewrite Z.compare_refl, Pos.compare_cont_refl; done.
Qed.

Lemma cell_eqb_refl c : cell_eqb c c = true.
Proof.
  destruct c; simpl; [apply String.eqb_refl | apply Z.eqb_refl | apply float_eqb_refl].
Qed.

Lemma float_eqb_true f g :
  float_eqb f g = true <->
  f = g \/ exists s t, f = S754_zero s /\ g = S754_zero t.
Proof.
  split.
  - destruct f as [s|s| |s m e], g as [t|t| |t m' e']; try done;
      unfold float_eqb, SFeqb, SFcompare; intros H;
      try (destruct s; done); try (destruct t; done).
    + right. eauto.
    + left. by destruct s, t.
    + by left.
    + left. change (Pos.compare_cont Eq m m') with (m ?= m')%positive in H.
      destruct s, t; try done;
        destruct (Z.compare_spec e e'); try done;
        destruct (Pos.compare_spec m m'); try done; by subst.
  - intros [->|(s & t & -> & ->)]; [apply float_eqb_refl | done].
Qed.

Lemma float_eqb_trans f g h :
  float_eqb f g = true -> float_eqb g h = true -> float_eqb f h = true.
Proof.
  rewrite !float_eqb_true.
  intros [H1|(s & t & H1 & H2)] [H3|(s' & t' & H3 & H4)]; subst; eauto 6.
Qed.

Lemma cell_eqb_trans a b c :
  cell_eqb a b = true -> cell_eqb b c = true -> cell_eqb a c = true.
Proof.
  destruct a, b, c; simpl; try done.
  - intros ->%String.eqb_eq. done.
  - intros ->%Z.eqb_eq. done.
  - apply float_eqb_trans.
Qed.

(** A value that is there is no key of a missing one. *)
Lemma cell_eqb_nan k e : isna k = false -> isna e = true -> cell_eqb k e = false.
Proof.
  destruct e as [| |[]]; try done. destruct k as [| |[]]; try done.
Qed.

Lemma member_In c K : member c K = true <-> exists k, In k K /\ cell_eqb c k = true.
Proof. apply existsb_exists. Qed.

Lemma member_app c l1 l2 : member c (l1 ++ l2) = member c l1 || member c l2.
Proof. apply existsb_app. Qed.

Lemma member_unique_from c : forall l seen,
  member c seen = true \/ In c l -> member c (unique_from seen l) = true.
Proof.
  induction l as [|d l IH]; simpl; intros seen [H|H]; try done.
  - destruct (member d seen); apply IH; left; [done|].
    rewrite member_app, H. done.
  - destruct H as [->|H].
    + destruct (member c seen) eqn:E; apply IH; left; [done|].
      rewrite member_app. simpl. rewrite cell_eqb_refl. by rewrite orb_true_r.
    + destruct (member d seen); apply IH; by right.
Qed.

(** Every value of a column is among its unique values. *)
Lemma isin_unique s : Forall (fun b => b = true) (isin s (unique s)).
Proof.
  unfold isin, unique. apply Forall_forall.
  intros b (c & -> & Hc%list_elem_of_In)%list_elem_of_fmap.
  apply member_unique_from. by right.
Qed.

Lemma select_all {A} mask (l : list A) :
  Forall (fun b => b = true) mask -> length mask = length l -> select mask l = l.
Proof.
  intros H. revert l. induction H as [|b mask -> _ IH]; intros [|a l]; simpl; try done.
  intros [= Hlen]. by rewrite IH.
Qed.

Lemma select_none {A} mask (l : list A) :
  Forall (fun b => b = false) mask -> select mask l = [].
Proof.
  intros H. revert l. induction H as [|b mask -> _ IH]; intros [|a l]; simpl; done.
Qed.

Lemma getitem_In df name s : getitem df name = inr s -> In (name, s) df.
Proof.
  induction df as [|[n s0] df IH]; simpl; [done|].
  destruct (String.eqb_spec n name) as [->|]; [intros [= ->]; by left | auto].
Qed.

Lemma slice_stop_nonneg (n : nat) len :
  slice_stop (Z.of_nat n) len = Nat.min n len.
Proof. unfold slice_stop. destruct (Z.ltb_spec (Z.of_nat n) 0); lia. Qed.

Lemma length_head_list {A} (n : nat) (l : list A) :
  length (head_list (Z.of_nat n) l) = Nat.min n (length l).
Proof. unfold head_list. rewrite slice_stop_nonneg, length_take. lia. Qed.

Lemma head_list_all {A} (n : nat) (l : list A) :
  (length l <= n)%nat -> head_list (Z.of_nat n) l = l.
Proof.
  intros H. unfold head_list. rewrite slice_stop_nonneg. apply take_ge. lia.
Qed.

Lemma lookup_head_list {A} (n : nat) (l : list A) i :
  head_list (Z.of_nat n) l !! i = if (i <? n)%nat then l !! i else None.
Proof.
  unfold head_list. rewrite slice_stop_nonneg.
  destruct (Nat.ltb_spec i n).
  - destruct (Nat.lt_ge_cases i (length l)).
    + apply lookup_take_lt. lia.
    + rewrite lookup_take_ge by lia. symmetry. by apply lookup_ge_None.
  - apply lookup_take_ge. lia.
Qed.


Lemma int_of_cell_Str t n :
  int_of_cell (Str t) = inr n <-> parse_int t = Some n /\ in_int64 n.
Proof.
  unfold int_of_cell, bind, to_int64, Py.int, raise, ret, in_int64, int64_min, int64_max.
  destruct (parse_int t) as [m|]; [|split; [done | by intros [[=] _]]].
  destruct (Z.leb_spec (- 2 ^ 63) m), (Z.leb_spec m (2 ^ 63 - 1)); simpl;
    (split; [intros [= ->] | intros [[= ->] ?]]); try done; lia.
Qed.

Lemma float_of_cell_Str t f : float_of_cell (Str t) = inr f <-> parse_float t = Some f.
Proof.
  unfold float_of_cell, Py.float, raise, ret.
  destruct (parse_float t); split; intros; simplify_eq; done.
Qed.

End PdFacts.

Module LoadFacts.
Import Py Pd St Top100 Spec PyFacts PdFacts.
Local Open Scope string_scope.

(** What a successful [load_data] went through. *)
Lemma load_data_inr src data :
  load_data src = inr data ->
  exists rev gro ints floats,
    getitem (read_csv src) revenue_col = inr rev /\ dtype_of rev = object_ /\
    getitem (read_csv src) growth_col = inr gro /\ dtype_of gro = object_ /\
    Forall2 (fun c n => int_of_cell (str_replace_cell "," "" c) = inr n)
            (values rev) ints /\
    Forall2 (fun c f => float_of_cell (str_replace_cell "%" "" c) = inr f)
            (values gro) floats /\
    data = setitem (setitem (read_csv src) revenue_col (mkSeries int64 (map Int ints)))
                   growth_col (mkSeries float64 (map Flt floats)).
Proof.
  unfold load_data. intros H.
  apply bind_inr in H as (rev & Hrev & H).
  apply bind_inr in H as (txt & Htxt & H).
  apply bind_inr in H as (num & Hnum & H).
  rewrite getitem_setitem_ne in H by done.
  apply bind_inr in H as (gro & Hgro & H).
  apply bind_inr in H as (txt' & Htxt' & H).
  apply bind_inr in H as (num' & Hnum' & H).
  injection H as <-.
  apply str_replace_inr in Htxt as [Hdt ->], Htxt' as [Hdt' ->].
  apply bind_inr in Hnum as (ints & Hints & [= <-]).
  apply bind_inr in Hnum' as (floats & Hfloats & [= <-]).
  simpl in Hints, Hfloats.
  apply mapM_inr, Forall2_fmap_l in Hints. apply mapM_inr, Forall2_fmap_l in Hfloats.
  by exists rev, gro, ints, floats.
Qed.

(** Field by field: what went in and what came out. *)
Lemma load_data_cells src data :
  load_data src = inr data ->
  exists rev rev' gro gro',
    getitem (read_csv src) revenue_col = inr rev /\
    getitem data revenue_col = inr rev' /\
    getitem (read_csv src) growth_col = inr gro /\
    getitem data growth_col = inr gro' /\
    dtype_of rev' = int64 /\ dtype_of gro' = float64 /\
    length (values rev') = length (values rev) /\
    length (values gro') = length (values gro) /\
    (forall i c, values rev !! i = Some c ->
       exists s n, c = Str s /\ parse_int (remove_all "," s) = Some n /\
                   in_int64 n /\ values rev' !! i = Some (Int n)) /\
    (forall i c, values gro !! i = Some c ->
       exists f, values gro' !! i = Some (Flt f) /\
                 match c with
                 | Str s => parse_float (remove_all "%" s) = Some f
                 | _ => f = S754_nan
                 end).
Proof.
  intros (rev & gro & ints & floats & Hrev & _ & Hgro & _ & Hi & Hf & ->)%load_data_inr.
  exists rev, (mkSeries int64 (map Int ints)), gro, (mkSeries float64 (map Flt floats)).
  rewrite getitem_setitem_eq, getitem_setitem_ne, getitem_setitem_eq by done.
  simpl. rewrite !length_map, <- (Forall2_length _ _ _ Hi), <- (Forall2_length _ _ _ Hf).
  repeat split; try done.
  - intros i c Hc. destruct (Forall2_lookup_l _ _ _ _ _ Hi Hc) as (n & Hn & Hcn).
    destruct c as [s| |]; try done. simpl in Hcn.
    rewrite replace_char_remove_all in Hcn. apply int_of_cell_Str in Hcn as [? ?].
    exists s, n. by rewrite list_lookup_fmap, Hn.
  - intros i c Hc. destruct (Forall2_lookup_l _ _ _ _ _ Hf Hc) as (f & Hn & Hcf).
    exists f. rewrite list_lookup_fmap, Hn. split; [done|].
    destruct c as [s| |]; simpl in Hcf; [|by injection Hcf..].
    rewrite replace_char_remove_all in Hcf. by apply float_of_cell_Str.
Qed.



(** With no upload and no default file the run stops on the warning. *)
Lemma load_without_input memo :
  exists h, load None None memo = (inl h, memo) /\ MissingInputError h.
Proof. by eexists _. Qed.


End LoadFacts.

Module ViewFacts.
Import Py Pd St Top100 Spec PyFacts PdFacts.
Local Open Scope string_scope.

Lemma names_company_spec col : names_company col = true <-> names_a_company col.
Proof.
  unfold names_company, names_a_company.
  rewrite orb_true_iff, !contains_occurs.
  rewrite !occurs_in_lower; [done|repeat constructor; simpl; lia..].
Qed.

Lemma names_company_not col : names_company col = false <-> ~ names_a_company col.
Proof.
  rewrite <- names_company_spec. destruct (names_company col); split; congruence.
Qed.

(** The loop stops at the first column that passes the test. *)
Lemma find_company_col_Some cols c :
  find_company_col cols = Some c ->
  exists pre post, cols = (pre ++ c :: post)%list /\ names_company c = true /\
                   Forall (fun x => names_company x = false) pre.
Proof.
  induction cols as [|x cols IH]; simpl; [done|].
  destruct (names_company x) eqn:E.
  - intros [= ->]. by exists [], cols.
  - intros (pre & post & -> & ? & ?)%IH. exists (x :: pre), post. auto.
Qed.

Lemma find_company_col_None cols :
  find_company_col cols = None -> Forall (fun x => names_company x = false) cols.
Proof.
  induction cols as [|x cols IH]; simpl; [constructor|].
  destruct (names_company x) eqn:E; [done | auto].
Qed.

Lemma getitem_mask_columns df mask : columns (getitem_mask df mask) = columns df.
Proof.
  unfold columns, getitem_mask. rewrite map_map. apply map_ext. by intros [? ?].
Qed.

Lemma head_columns n df : columns (head n df) = columns df.
Proof.
  unfold columns, head. rewrite map_map. apply map_ext. by intros [? ?].
Qed.

Lemma nrows_head (n : nat) df :
  nrows (head (Z.of_nat n) df) = Nat.min n (nrows df).
Proof.
  destruct df as [|[name s] df]; simpl; [lia|]. apply length_head_list.
Qed.

Lemma row_head (n : nat) df i :
  row i (head (Z.of_nat n) df)
  = if (i <? n)%nat then row i df else map (fun '(name, _) => (name, None)) df.
Proof.
  unfold row, head. rewrite map_map.
  destruct (Nat.ltb_spec i n) as [Hlt|Hge]; apply map_ext; intros [name s]; simpl;
    rewrite lookup_head_list.
  - by apply Nat.ltb_lt in Hlt as ->.
  - by apply Nat.ltb_ge in Hge as ->.
Qed.

(** A mask that is true everywhere selects the frame itself. *)
Lemma getitem_mask_all df mask :
  aligned df -> Forall (fun b => b = true) mask -> length mask = nrows df ->
  getitem_mask df mask = df.
Proof.
  unfold aligned, getitem_mask. intros Hal Hmask Hlen.
  generalize dependent (nrows df). intros n Hal Hlen.
  induction Hal as [|[name [dt l]] df Hl _ IH]; simpl; [done|].
  simpl in Hl. rewrite select_all by congruence. by rewrite IH.
Qed.

Lemma getitem_mask_none df mask :
  Forall (fun b => b = false) mask ->
  Forall (fun '(_, s) => values s = []) (getitem_mask df mask) /\
  nrows (getitem_mask df mask) = 0%nat.
Proof.
  intros Hmask. split.
  - unfold getitem_mask. apply Forall_fmap, Forall_forall. intros [name s] _. simpl.
    by apply select_none.
  - destruct df as [|[name s] df]; simpl; [done|]. by rewrite select_none.
Qed.

Lemma aligned_getitem df name s :
  aligned df -> getitem df name = inr s -> length (values s) = nrows df.
Proof.
  intros Hal Hs%getitem_In. unfold aligned in Hal.
  rewrite Forall_forall in Hal. by apply (Hal (name, s)), list_elem_of_In.
Qed.

End ViewFacts.

(* ===================================================================== *)
(** * Counting and sorting *)
(* ===================================================================== *)

Module CountFacts.
Import Py Pd Spec PdFacts.

Lemma keys_bump c tab :
  map fst (bump c tab)
  = if member c (map fst tab) then map fst tab else map fst tab ++ [c].
Proof.
  induction tab as [|[k n] tab IH]; simpl; [done|].
  destruct (cell_eqb c k); simpl; [done|]. rewrite IH.
  by destruct (member c (map fst tab)).
Qed.

(** The keys of the table are the distinct values that are there, in the
    order [unique] gives them. *)
Lemma keys_count_from l : forall tab,
  map fst (count_from tab l) = unique_from (map fst tab) (List.filter present l).
Proof.
  induction l as [|c l IH]; intros tab; simpl; [done|].
  unfold present at 1. destruct (isna c); simpl; [apply IH|].
  rewrite IH, keys_bump. by destruct (member c (map fst tab)).
Qed.

Lemma length_value_count s : length (value_count (values s)) = distinct_present s.
Proof.
  unfold distinct_present, value_count.
  by rewrite <- (keys_count_from _ []), length_map.
Qed.

Lemma sum_counts_bump c tab : sum_counts (bump c tab) = sum_counts tab + 1.
Proof.
  unfold sum_counts. induction tab as [|[k n] tab IH]; simpl; [done|].
  destruct (cell_eqb c k); simpl; lia.
Qed.

(** Every value that is there is counted once. *)
Lemma sum_counts_count_from l : forall tab,
  sum_counts (count_from tab l)
  = sum_counts tab + Z.of_nat (length (List.filter present l)).
Proof.
  induction l as [|c l IH]; intros tab; simpl; [lia|].
  unfold present at 1. destruct (isna c); simpl; [apply IH|].
  rewrite IH, sum_counts_bump. lia.
Qed.

Lemma sum_counts_value_count s : sum_counts (value_count (values s)) = count_present s.
Proof. unfold value_count, count_present. by rewrite sum_counts_count_from. Qed.

Lemma sum_counts_Permutation r r' : r ≡ₚ r' -> sum_counts r = sum_counts r'.
Proof.
  unfold sum_counts. induction 1 as [|[? ?]| [? ?] [? ?] |]; simpl in *; lia.
Qed.

Lemma first_pos_app_found k seen l :
  (first_pos k seen < length seen)%nat -> first_pos k (seen ++ l) = first_pos k seen.
Proof.
  induction seen as [|c seen IH]; simpl; [lia|].
  destruct (cell_eqb k c); [done|]. intros H. f_equal. apply IH. lia.
Qed.

Lemma first_pos_app_fresh k seen l :
  (forall e, In e seen -> cell_eqb k e = false) ->
  first_pos k (seen ++ l) = (length seen + first_pos k l)%nat.
Proof.
  induction seen as [|c seen IH]; simpl; [done|]. intros H.
  rewrite (H c) by auto. f_equal. apply IH. auto.
Qed.




End CountFacts.

Module SortFacts.
Import Py Pd Spec PdFacts CountFacts.

Lemma rev_reverse {A} (l : list A) : rev l = reverse l.
Proof. unfold reverse. apply rev_alt. Qed.

Lemma lookup_rev {A} (l : list A) i x :
  rev l !! i = Some x <-> l !! (length l - S i)%nat = Some x /\ (i < length l)%nat.
Proof. rewrite rev_reverse. apply reverse_lookup_Some. Qed.

Lemma take_at_seq_from {A} (a pre : list A) :
  take_at (pre ++ a) (seq (length pre) (length a)) = a.
Proof.
  unfold take_at. revert pre. induction a as [|x a IH]; intros pre; simpl; [done|].
  rewrite list_lookup_middle by done. f_equal.
  specialize (IH (pre ++ [x])). rewrite <- app_assoc, length_app in IH. simpl in IH.
  by rewrite Nat.add_1_r in IH.
Qed.

Lemma take_at_seq {A} (a : list A) : take_at a (seq 0 (length a)) = a.
Proof. apply (take_at_seq_from a []). Qed.

(** Indexing by a rearrangement of the positions rearranges the array. *)
Lemma take_at_Permutation {A} (a : list A) idx :
  idx ≡ₚ seq 0 (length a) -> take_at a idx ≡ₚ a.
Proof. intros H. unfold take_at. rewrite H. by rewrite <- (take_at_seq a) at 2. Qed.

Lemma in_range_of_Permutation idx n :
  idx ≡ₚ seq 0 n -> Forall (fun i => i < n)%nat idx.
Proof.
  intros H. apply Forall_forall. intros i Hi. rewrite H in Hi.
  apply list_elem_of_In, in_seq in Hi. lia.
Qed.

Lemma take_at_lookup {A} (a : list A) idx x :
  Forall (fun i => i < length a)%nat idx ->
  take_at a idx !! x = idx !! x ≫= (fun i => a !! i).
Proof.
  unfold take_at. intros H. revert x. induction H as [|i idx Hi _ IH]; intros x; [done|].
  simpl. destruct (lookup_lt_is_Some_2 a i Hi) as [y Hy]. rewrite Hy.
  destruct x as [|x]; simpl; [done | apply IH].
Qed.

Lemma StronglySorted_lookup {A} (R : relation A) l a b x y :
  StronglySorted R l -> (a < b)%nat -> l !! a = Some x -> l !! b = Some y -> R x y.
Proof.
  intros H. revert a b. induction H as [|z l _ IH Hz]; intros a b Hab Ha Hb; [done|].
  destruct b as [|b]; [lia|]. destruct a as [|a]; simpl in *.
  - injection Ha as <-. rewrite Forall_forall in Hz.
    by eapply Hz, list_elem_of_lookup_2.
  - apply (IH a b); [lia | done..].
Qed.

(** A stable sort sorts, and keeps ties. *)
Lemma stable_at_sorts argsort v : stable_at argsort v -> sorts argsort v.
Proof.
  intros [Hperm Hsorted]. split; [done|]. intros a b i j Hab Ha Hb.
  destruct (StronglySorted_lookup _ _ _ _ _ _ Hsorted Hab Ha Hb) as [?|[? _]]; lia.
Qed.


Section Sorting.

Variable argsort : list Z -> list nat.

Lemma nargsort_desc_Permutation items :
  sorts argsort (rev items) ->
  nargsort_desc argsort items ≡ₚ seq 0 (length items).
Proof.
  intros [Hperm _].
  unfold nargsort_desc. rewrite rev_reverse, reverse_Permutation.
  rewrite take_at_Permutation.
  - by rewrite rev_reverse, reverse_Permutation.
  - rewrite Hperm, !length_rev. by rewrite length_seq.
Qed.

(** Sorting rearranges the table. *)
Lemma sort_values_desc_Permutation tab :
  sorts argsort (rev (map snd tab)) -> sort_values_desc argsort tab ≡ₚ tab.
Proof.
  intros Hok. unfold sort_values_desc. apply take_at_Permutation.
  by rewrite nargsort_desc_Permutation, length_map.
Qed.

(** What stands at position [x] of the descending indexer. *)
Lemma nargsort_desc_lookup items x i :
  sorts argsort (rev items) ->
  nargsort_desc argsort items !! x = Some i ->
  (x < length items)%nat /\ (i < length items)%nat /\
  argsort (rev items) !! (length items - S x)%nat = Some (length items - S i)%nat.
Proof.
  intros [Hperm _].
  unfold nargsort_desc. set (n := length items). set (p := argsort (rev items)).
  assert (Hp : p ≡ₚ seq 0 n).
  { subst p n. by rewrite Hperm, length_rev. }
  assert (Hlen : length p = n) by (by rewrite Hp, length_seq).
  assert (Hin : Forall (fun k => k < length (rev (seq 0 n)))%nat p).
  { rewrite length_rev, length_seq. by apply in_range_of_Permutation. }
  intros [Hx Hlt]%lookup_rev.
  assert (Hlen' : length (take_at (rev (seq 0 n)) p) = n).
  { assert (Hp' : p ≡ₚ seq 0 (length (rev (seq 0 n))))
      by (by rewrite length_rev, length_seq).
    rewrite (Permutation_length (take_at_Permutation _ _ Hp')).
    by rewrite length_rev, length_seq. }
  rewrite Hlen' in Hx, Hlt. rewrite take_at_lookup in Hx by done.
  destruct (p !! (n - S x)%nat) as [k|] eqn:Hk; [|done]. simpl in Hx.
  apply lookup_rev in Hx as [Hx Hk']. rewrite length_seq in Hx, Hk'.
  apply lookup_seq in Hx as [-> _]. split; [done|]. split; [lia|].
  f_equal. lia.
Qed.

Lemma sort_values_desc_lookup tab x e :
  sorts argsort (rev (map snd tab)) ->
  sort_values_desc argsort tab !! x = Some e ->
  exists i, nargsort_desc argsort (map snd tab) !! x = Some i /\ tab !! i = Some e.
Proof.
  intros Hok. unfold sort_values_desc. rewrite take_at_lookup.
  - destruct (nargsort_desc argsort (map snd tab) !! x) as [i|]; [eauto | done].
  - rewrite <- (length_map snd). by apply in_range_of_Permutation, nargsort_desc_Permutation.
Qed.

Lemma nth_rev_items (items : list Z) i :
  (i < length items)%nat ->
  nth (length items - S i) (rev items) 0 = nth i items 0.
Proof.
  intros Hi. rewrite rev_nth by lia. f_equal. lia.
Qed.

Lemma nth_counts (tab : list (cell * Z)) i k n :
  tab !! i = Some (k, n) -> nth i (map snd tab) 0 = n.
Proof. intros H. by rewrite nth_lookup, list_lookup_fmap, H. Qed.

(** Two entries of the sorted table, the earlier one first: where they
    stood in the table, and how their counts compare. *)
Lemma sort_values_desc_pair tab x y k1 n1 k2 n2 :
  sorts argsort (rev (map snd tab)) ->
  (x < y)%nat ->
  sort_values_desc argsort tab !! x = Some (k1, n1) ->
  sort_values_desc argsort tab !! y = Some (k2, n2) ->
  exists i j,
    tab !! i = Some (k1, n1) /\ tab !! j = Some (k2, n2) /\ n2 <= n1 /\
    (keeps_ties argsort (rev (map snd tab)) -> n1 = n2 -> (i < j)%nat).
Proof.
  intros Hok Hxy Hx Hy.
  apply sort_values_desc_lookup in Hx as (i & Hi & Hti); [|done].
  apply sort_values_desc_lookup in Hy as (j & Hj & Htj); [|done].
  exists i, j. split; [done|]. split; [done|].
  apply nargsort_desc_lookup in Hi as (Hx & Hi' & Hpi); [|done].
  apply nargsort_desc_lookup in Hj as (Hy & Hj' & Hpj); [|done].
  set (items := map snd tab) in *. set (n := length items) in *.
  rewrite <- (nth_counts _ _ _ _ Hti), <- (nth_counts _ _ _ _ Htj). fold items.
  rewrite <- (nth_rev_items items i), <- (nth_rev_items items j) by done. fold n.
  assert (Hab : (n - S y < n - S x)%nat) by lia.
  split.
  - by apply (proj2 Hok _ _ _ _ Hab Hpj Hpi).
  - intros Hties Heq.
    assert ((n - S j < n - S i)%nat); [|lia].
    by apply (Hties _ _ _ _ Hab Hpj Hpi).
Qed.

End Sorting.

End SortFacts.

(* ===================================================================== *)
(** * The quicksort *)
(* ===================================================================== *)

Module NpFacts.
Import Spec.

Lemma at_middle (L R : list nat) y :
  Np.at_ (L ++ y :: R) (Z.of_nat (length L)) = y.
Proof.
  unfold Np.at_. rewrite Nat2Z.id, nth_lookup, list_lookup_middle; done.
Qed.

Lemma store_middle (L R : list nat) y x :
  Np.store (L ++ y :: R) (Z.of_nat (length L)) x = L ++ x :: R.
Proof.
  unfold Np.store. rewrite Nat2Z.id.
  rewrite insert_app_r_alt by lia. by rewrite Nat.sub_diag.
Qed.

(** The inner loop of the insertion sort, on a sorted stretch [L ++ G]
    whose part [G] is the keys above [vp]: [G] moves up by one slot. *)
Lemma shift_up_spec v vp : forall G L y R fuel,
  Forall (fun g => vp < nth g v 0) G ->
  (forall L' l, L = L' ++ [l] -> ~ vp < nth l v 0) ->
  (length G <= fuel)%nat ->
  Np.shift_up v fuel (L ++ G ++ y :: R) 0 vp (Z.of_nat (length L + length G))
  = (L ++ hd y G :: G ++ R, Z.of_nat (length L)).
Proof.
  induction G as [|g G IH] using rev_ind; intros L y R fuel HG HL Hfuel.
  - simpl. rewrite Nat.add_0_r. destruct fuel as [|fuel]; [done|]. simpl.
    destruct L as [|l0 L0] using rev_ind; [done|]. clear IHL0.
    rewrite length_app. simpl.
    replace (Z.of_nat (length L0 + 1) - 1) with (Z.of_nat (length L0)) by lia.
    unfold Np.key. rewrite <- app_assoc. simpl. rewrite at_middle.
    destruct (Z.ltb_spec vp (nth l0 v 0)) as [Hlt|_].
    + by destruct (HL L0 l0).
    + by rewrite andb_false_r.
  - apply Forall_app in HG as [HG Hg]. apply Forall_inv in Hg.
    rewrite length_app in Hfuel. simpl in Hfuel.
    destruct fuel as [|fuel]; [lia|]. simpl.
    rewrite length_app. simpl.
    replace (Z.of_nat (length L + (length G + 1)) - 1)
      with (Z.of_nat (length (L ++ G))) by (rewrite length_app; lia).
    replace (Z.of_nat (length L + (length G + 1)))
      with (Z.of_nat (length ((L ++ G) ++ [g]))) by (rewrite !length_app; simpl; lia).
    assert (Hshape : L ++ (G ++ [g]) ++ y :: R = (L ++ G) ++ g :: y :: R)
      by (by rewrite <- !app_assoc).
    rewrite Hshape. unfold Np.key. rewrite at_middle.
    apply Z.ltb_lt in Hg as Hg'. rewrite Hg'.
    assert (Hpos : (Z.of_nat (length ((L ++ G) ++ [g])) >? 0) = true)
      by (apply Z.gtb_lt; rewrite length_app; simpl; lia).
    rewrite Hpos. simpl.
    assert (Hshape' : (L ++ G) ++ g :: y :: R = ((L ++ G) ++ [g]) ++ y :: R)
      by (by rewrite <- !app_assoc).
    rewrite Hshape' at 1. rewrite store_middle.
    rewrite <- !app_assoc. simpl. rewrite length_app.
    rewrite (IH L g (g :: R) fuel) by (done || lia).
    f_equal. f_equal. destruct G; done.
Qed.

(** A sorted stretch splits at the last key that is not above [vp]. *)
Lemma split_above v vp (S : list nat) :
  exists L G,
    S = L ++ G /\ Forall (fun g => vp < nth g v 0) G /\
    (forall L' l, L = L' ++ [l] -> ~ vp < nth l v 0).
Proof.
  induction S as [|s S (L & G & -> & HG & HL)] using rev_ind.
  - exists [], []. repeat split; [done|]. by intros [|] ? ?.
  - destruct (Z.lt_ge_cases vp (nth s v 0)) as [Hlt|Hge].
    + exists L, (G ++ [s]). rewrite app_assoc. repeat split; [|done].
      apply Forall_app. auto.
    + exists ((L ++ G) ++ [s]), []. rewrite app_nil_r. repeat split; [done|].
      intros L' l [_ <-]%app_inj_tail. lia.
Qed.

(** One round of the insertion sort: the entry at [pi] goes to its place
    in the sorted stretch before it, behind the keys that equal its own. *)
Lemma insert_at_spec v (S R : list nat) x :
  exists L G,
    S = L ++ G /\ Forall (fun g => nth x v 0 < nth g v 0) G /\
    (forall L' l, L = L' ++ [l] -> ~ nth x v 0 < nth l v 0) /\
    Np.insert_at v 0 (S ++ x :: R) (Z.of_nat (length S)) = L ++ x :: G ++ R.
Proof.
  destruct (split_above v (nth x v 0) S) as (L & G & -> & HG & HL).
  exists L, G. repeat split; try done.
  unfold Np.insert_at. rewrite at_middle.
  rewrite (length_app L G), <- app_assoc.
  rewrite (shift_up_spec v _ G L x R); [|done..|].
  - apply store_middle.
  - rewrite !length_app. lia.
Qed.

(** After [m] rounds the first [m + 1] positions are in stable order and
    the rest has not moved. *)
Lemma insertion_rounds v n m :
  (m < n)%nat ->
  exists S,
    fold_left (Np.insert_at v 0) (map (fun k => 0 + 1 + Z.of_nat k) (seq 0 m)) (seq 0 n)
    = S ++ seq (Datatypes.S m) (n - Datatypes.S m) /\
    S ≡ₚ seq 0 (Datatypes.S m) /\
    StronglySorted (key_lt v) S.
Proof.
  induction m as [|m IH]; intros Hm.
  - exists [0%nat]. simpl. split; [|split; [done | repeat constructor]].
    destruct n; [lia|]. simpl. by rewrite Nat.sub_0_r.
  - destruct IH as (S & Hfold & Hperm & Hsorted); [lia|].
    rewrite seq_S, map_app, fold_left_app, Hfold. simpl.
    assert (Hlen : length S = Datatypes.S m) by (by rewrite Hperm, length_seq).
    replace (n - Datatypes.S m)%nat with (Datatypes.S (n - Datatypes.S (Datatypes.S m))) by lia.
    simpl.
    replace (0 + 1 + Z.of_nat m) with (Z.of_nat (length S)) by lia.
    destruct (insert_at_spec v S (seq (Datatypes.S (Datatypes.S m)) (n - Datatypes.S (Datatypes.S m)))
                (Datatypes.S m)) as (L & G & -> & HG & HL & ->).
    exists (L ++ Datatypes.S m :: G). split; [by rewrite <- app_assoc|]. split.
    + change (0%nat :: 1%nat :: seq 2 m) with (seq 0 (Datatypes.S (Datatypes.S m))).
      rewrite (seq_S (Datatypes.S m)), <- Hperm, <- Permutation_middle.
      by rewrite (Permutation_app_comm (L ++ G)).
    + apply StronglySorted_app in Hsorted as (Hcross & HsL & HsG).
      assert (Hidx : forall i, i ∈ L ++ G -> (i < Datatypes.S m)%nat).
      { intros i Hi. rewrite Hperm in Hi. apply list_elem_of_In, in_seq in Hi. lia. }
      apply StronglySorted_app_2; [|done|].
      * intros i j Hi [->|Hj]%elem_of_cons; [|by apply Hcross].
        assert (Hi' : (i < Datatypes.S m)%nat) by (apply Hidx, elem_of_app; auto).
        assert (~ nth (Datatypes.S m) v 0 < nth i v 0); [|unfold key_lt; lia].
        destruct L as [|l L _] using rev_ind; [by apply elem_of_nil in Hi|].
        specialize (HL L l eq_refl).
        apply elem_of_app in Hi as [Hi|Hi];
          [|by apply list_elem_of_singleton in Hi as ->].
        apply StronglySorted_app in HsL as (HLl & _ & _).
        destruct (HLl i l Hi) as [?|[? _]]; [by left | lia..].
      * apply StronglySorted_cons. split; [|done].
        eapply Forall_impl; [done|]. intros g Hg. by left.
Qed.

(** On an array of at most 17 keys the quicksort is its insertion sort. *)
Lemma argsort_small v :
  (length v <= 17)%nat ->
  Np.argsort v
  = Np.insertion_sort v (seq 0 (length v)) 0 (Z.of_nat (length v) - 1).
Proof.
  intros Hn. unfold Np.argsort, Np.aquicksort. rewrite length_seq.
  set (n := length v) in *.
  assert (Hdepth : (Z.log2 (Z.of_nat n) * 2 <? 0) = false).
  { apply Z.ltb_ge. pose proof (Z.log2_nonneg (Z.of_nat n)). lia. }
  simpl. rewrite Hdepth.
  assert (Hsame : Np.split_while v (length (seq 0 n)) (seq 0 n) 0 (Z.of_nat n - 1)
                    (Z.log2 (Z.of_nat n) * 2) []
                  = (seq 0 n, 0, Z.of_nat n - 1, Z.log2 (Z.of_nat n) * 2, [])).
  { destruct (length (seq 0 n)); [done|]. simpl.
    assert ((Z.of_nat n - 1 - 0 >? Np.SMALL_QUICKSORT) = false) as ->; [|done].
    unfold Np.SMALL_QUICKSORT. apply not_true_is_false. intros ?%Z.gtb_lt. lia. }
  by rewrite Hsame.
Qed.

(** So on such an array it is the stable sort. *)
Lemma argsort_small_stable v : (length v <= 17)%nat -> stable_at Np.argsort v.
Proof.
  intros Hn. unfold stable_at. rewrite argsort_small by done.
  unfold Np.insertion_sort. set (n := length v).
  destruct n as [|m] eqn:En.
  - simpl. split; [done | constructor].
  - replace (Z.to_nat (Z.of_nat (Datatypes.S m) - 1 - 0)) with m by lia.
    destruct (insertion_rounds v (Datatypes.S m) m) as (S & -> & Hperm & Hsorted); [lia|].
    rewrite Nat.sub_diag. simpl. by rewrite app_nil_r.
Qed.

(** ** Slots of the array of positions *)






Lemma swap_same a p : 0 <= p < Z.of_nat (length a) -> Np.swap a p p = a.
Proof.
  intros Hp. unfold Np.swap, Np.store, Np.at_.
  rewrite list_insert_insert_eq. apply list_insert_id.
  rewrite nth_lookup. destruct (lookup_lt_is_Some_2 a (Z.to_nat p)) as [x Hx]; [lia|].
  by rewrite Hx.
Qed.


(** ** The split *)

Section SplitFacts.
Variable v : list Z.







End SplitFacts.

(** ** The insertion sort of a stretch *)

Section InsertionFacts.
Variable v : list Z.





End InsertionFacts.

(** ** The heap sort of a stretch *)

Section HeapFacts.
Variable v : list Z.
Variable pl : Z.





End HeapFacts.

(** ** The loop of the quicksort *)

Section LoopFacts.
Variable v : list Z.













End LoopFacts.


End NpFacts.

Module Claims.
Import Py Pd St Top100 Spec PyFacts PdFacts LoadFacts ViewFacts CountFacts SortFacts
  NpFacts.
Local Open Scope string_scope.

(** C1.  Whenever [load_data] succeeds, every revenue field that held text
    has become the integer read from that text without its commas, and every
    growth field that held text has become the float read from that text
    without its percent signs.  In particular the one-row file with revenue
    "1,234,567" and growth "12.5%" loads to the integer 1234567 and to the
    float 25/2.  The integer and the float are read as Python reads them:
    a revenue "1,000" followed by a no-break space loads to 1000, one in
    Arabic-Indic digits to 123, and the growths written with such
    characters to 5 and to 7/2. *)
Theorem load_normalises :
  (forall src data,
      load_data src = inr data ->
      exists rev rev' gro gro',
        getitem (read_csv src) revenue_col = inr rev /\
        getitem data revenue_col = inr rev' /\
        getitem (read_csv src) growth_col = inr gro /\
        getitem data growth_col = inr gro' /\
        (forall i s, values rev !! i = Some (Str s) ->
           exists n, parse_int (remove_all "," s) = Some n /\
                     values rev' !! i = Some (Int n)) /\
        (forall i s, values gro !! i = Some (Str s) ->
           exists f, parse_float (remove_all "%" s) = Some f /\
                     values gro' !! i = Some (Flt f))) /\
  (exists data f,
      load_data round_trip = inr data /\
      getitem data revenue_col = inr (mkSeries int64 [Int 1234567]) /\
      getitem data growth_col = inr (mkSeries float64 [Flt f]) /\
      float_is f 25 2) /\
  (exists data f g,
      load_data numerals_beyond_ascii = inr data /\
      getitem data revenue_col = inr (mkSeries int64 [Int 1000; Int 123]) /\
      getitem data growth_col = inr (mkSeries float64 [Flt f; Flt g]) /\
      float_is f 5 1 /\ float_is g 7 2).
Proof.
  split; [|split].
  - intros src data (rev & rev' & gro & gro' & Hr & Hr' & Hg & Hg' & _ & _ & _ & _ & Hrev & Hgro)%load_data_cells.
    exists rev, rev', gro, gro'. repeat split; try done.
    + intros i s Hs. destruct (Hrev i _ Hs) as (s' & n & [= <-] & ? & _ & ?). eauto.
    + intros i s Hs. destruct (Hgro i _ Hs) as (f & ? & ?). eauto.
  - eexists _, _. split; [vm_compute; reflexivity|]. repeat split.
  - eexists _, _, _. split; [vm_compute; reflexivity|]. repeat split.
Qed.

Lemma load_normalises_witness :
  exists n f,
    parse_int (remove_all "," "1,000,000") = Some n /\
    parse_float (remove_all "%" "5.0%") = Some f /\
    n = 1000000%Z /\ float_is f 5 1.
Proof.
  destruct (proj1 load_normalises two_companies _ eq_refl)
    as (rev & rev' & gro & gro' & Hr & Hr' & Hg & Hg' & Hrev & Hgro).
  injection Hr as <-. injection Hg as <-. injection Hr' as <-. injection Hg' as <-.
  destruct (Hrev 0%nat _ eq_refl) as (n & Hn & Hn').
  destruct (Hgro 0%nat _ eq_refl) as (f & Hf & Hf').
  exists n, f. repeat split; [done|done|..].
  - vm_compute in Hn'. congruence.
  - vm_compute in Hf'. injection Hf' as <-. vm_compute. reflexivity.
Defined.



(** C5 as stated fails: a revenue written with a minus sign is read as a
    negative integer, and the load succeeds. *)
Lemma negative_revenue_loads :
  (exists data,
      load_data negative_revenue = inr data /\
      getitem data revenue_col = inr (mkSeries int64 [Int (-5); Int 1000])) /\
  ~ (forall src data rev n,
        load_data src = inr data -> getitem data revenue_col = inr rev ->
        In (Int n) (values rev) -> (0 <= n)%Z).
Proof.
  split.
  - eexists _. split; reflexivity.
  - intros H. specialize (H negative_revenue _ _ (-5)%Z eq_refl eq_refl).
    assert (0 <= -5)%Z by (apply H; by left). lia.
Qed.

(** C5, amended.  Every frame that [load_data] returns has a revenue column
    of signed 64-bit integers, one per field of the input; the integer is not
    negative unless the text of the field has a minus sign in it. *)
Theorem revenue_is_int64 src data :
  load_data src = inr data ->
  exists rev rev',
    getitem (read_csv src) revenue_col = inr rev /\
    getitem data revenue_col = inr rev' /\
    dtype_of rev' = int64 /\
    length (values rev') = length (values rev) /\
    forall i c, values rev' !! i = Some c ->
      exists s n, values rev !! i = Some (Str s) /\ c = Int n /\ in_int64 n /\
                  (~ has_char "-" s -> (0 <= n)%Z).
Proof.
  intros (rev & rev' & gro & gro' & Hr & Hr' & _ & _ & Hdt & _ & Hlen & _ & Hrev & _)%load_data_cells.
  exists rev, rev'. repeat split; try done.
  intros i c Hc.
  destruct (values rev !! i) as [c0|] eqn:Hc0.
  - destruct (Hrev i c0 Hc0) as (s & n & -> & Hn & Hrange & Hn').
    exists s, n. rewrite Hc in Hn'. injection Hn' as ->. repeat split; try done.
    + apply Hrange.
    + apply Hrange.
    + intros Hno. apply (parse_int_unsigned _ _ Hn).
      intros Hin. apply Hno. unfold has_char, remove_all in *.
      rewrite list_ascii_of_string_of_list_ascii in Hin.
      by apply filter_In in Hin as [? _].
  - apply lookup_ge_None in Hc0. apply lookup_lt_Some in Hc. lia.
Qed.

Lemma revenue_is_int64_witness :
  exists n, in_int64 n /\ (0 <= n)%Z /\ n = 1000000%Z.
Proof.
  destruct (revenue_is_int64 two_companies _ eq_refl)
    as (rev & rev' & Hr & Hr' & _ & _ & Hcells).
  injection Hr as <-. injection Hr' as <-.
  destruct (Hcells 0%nat _ eq_refl) as (s & n & Hs & Hn & Hrange & Hpos).
  injection Hs as <-. injection Hn as <-.
  exists 1000000%Z. split; [apply Hrange|]. split; [|done].
  apply Hpos. unfold has_char. simpl. intros H.
  repeat (destruct H as [H|H]; [discriminate H|]). done.
Defined.




(** C4.  The company-name column is the first column, in the declared order,
    whose lowercased name contains "name" or "company", that is, in which
    one of the two words occurs with each letter small or capital: it is
    picked, and no column before it qualifies.  When no column qualifies the
    run stops on the error message, whatever the user selected, and hands
    out no view.  So "Name" is found in the two-company file, "FULL NAME"
    before "Company" under the headers "RANK", "FULL NAME", "Company", and
    nothing under "Rank", "Firm", "Industry". *)
Theorem company_col_first_match :
  (forall data,
      match company_col data with
      | inr c =>
          exists pre post,
            columns data = (pre ++ c :: post)%list /\ names_a_company c /\
            Forall (fun x => ~ names_a_company x) pre
      | inl h =>
          SchemaError h /\
          Forall (fun x => ~ names_a_company x) (columns data) /\
          forall argsort selection, render argsort data selection = inl h
      end) /\
  company_col (read_csv two_companies) = inr "Name" /\
  company_col capital_headers = inr "FULL NAME" /\
  company_col no_company_header = inl (Errored no_company_msg).
Proof.
  split; [|repeat split; reflexivity].
  intros data. unfold company_col, render, company_col.
  destruct (find_company_col (columns data)) as [c|] eqn:E.
  - apply find_company_col_Some in E as (pre & post & Hcols & Hc & Hpre).
    destruct c as [|a c]; [done|].
    exists pre, post. split; [done|]. split; [by apply names_company_spec|].
    eapply Forall_impl; [done|]. intros x. apply names_company_not.
  - apply find_company_col_None in E. repeat split.
    eapply Forall_impl; [done|]. intros x. apply names_company_not.
Qed.

(** C6.  With no industry selected the filter keeps nothing: on any frame
    that has an Industry column, however many records, the result has the
    same columns and no record. *)
Theorem empty_selection_keeps_nothing data col :
  getitem data "Industry" = inr col ->
  exists out,
    filtered_data data [] = inr out /\
    nrows out = 0%nat /\
    columns out = columns data /\
    Forall (fun '(_, s) => values s = []) out.
Proof.
  intros Hcol. unfold filtered_data. rewrite Hcol. simpl.
  eexists _. split; [reflexivity|].
  assert (Hmask : Forall (fun b => b = false) (isin col []))
    by (unfold isin; by apply Forall_fmap, Forall_forall).
  destruct (getitem_mask_none data _ Hmask) as [Hall H0].
  split; [done|]. split; [apply getitem_mask_columns | done].
Qed.

Lemma empty_selection_keeps_nothing_witness :
  nrows (read_csv two_companies) = 2%nat /\
  exists out, filtered_data (read_csv two_companies) [] = inr out /\ nrows out = 0%nat.
Proof.
  split; [reflexivity|].
  destruct (empty_selection_keeps_nothing (read_csv two_companies) _ eq_refl)
    as (out & Hout & Hn & _).
  by exists out.
Defined.

(** C7.  With every industry that occurs selected, which is what the
    multiselect offers and preselects, the filter returns the frame itself,
    so as many records as it was given. *)
Theorem full_selection_keeps_everything data col :
  aligned data ->
  getitem data "Industry" = inr col ->
  industry_options data = inr (unique col) /\
  exists out,
    filtered_data data (unique col) = inr out /\
    nrows out = nrows data /\
    out = data.
Proof.
  intros Hal Hcol. unfold industry_options, filtered_data. rewrite Hcol. simpl.
  split; [done|]. eexists _. split; [reflexivity|].
  assert (getitem_mask data (isin col (unique col)) = data) as ->; [|done].
  apply getitem_mask_all; [done | apply isin_unique |].
  unfold isin. rewrite length_map. by eapply aligned_getitem.
Qed.

Lemma full_selection_keeps_everything_witness :
  exists out,
    filtered_data (read_csv two_companies) [Str "Tech"; Str "Retail"] = inr out /\
    nrows out = 2%nat.
Proof.
  destruct (full_selection_keeps_everything (read_csv two_companies)
              (text ["Tech"; "Retail"])) as (_ & out & Hout & Hn & _).
  - repeat constructor.
  - reflexivity.
  - by exists out.
Defined.

(** C9.  The preview, [data.head(10)], has [min(10, len(data))] records and
    the columns of [data]; its record at each position below ten is the
    record of [data] at that position, and it has nothing from ten on. *)
Theorem preview_first_ten data :
  nrows (preview data) = Nat.min 10 (nrows data) /\
  columns (preview data) = columns data /\
  (forall i, (i < 10)%nat -> row i (preview data) = row i data) /\
  (forall i, (10 <= i)%nat ->
     row i (preview data) = map (fun '(name, _) => (name, None)) data).
Proof.
  unfold preview. change 10%Z with (Z.of_nat 10).
  split; [apply nrows_head|]. split; [apply head_columns|].
  split; intros i Hi; rewrite row_head.
  - by apply Nat.ltb_lt in Hi as ->.
  - by apply Nat.ltb_ge in Hi as ->.
Qed.

Lemma preview_first_ten_witness :
  row 1 (preview (read_csv two_companies)) = row 1 (read_csv two_companies) /\
  row 10 (preview (read_csv two_companies))
  = map (fun '(name, _) => (name, None)) (read_csv two_companies).
Proof.
  destruct (preview_first_ten (read_csv two_companies)) as (_ & _ & Hlt & Hge).
  split; [apply Hlt | apply Hge]; lia.
Defined.

(** The counts of a column with at most 17 distinct values are an array on
    which numpy's quicksort is stable. *)
Lemma few_locations_stable col :
  (distinct_present col <= 17)%nat -> stable_at Np.argsort (sort_input col).
Proof.
  intros H. apply argsort_small_stable. unfold sort_input.
  by rewrite length_rev, length_map, length_value_count.
Qed.

Lemma count_present_all data col :
  aligned data -> getitem data "Headquarters" = inr col ->
  Forall (fun c => present c = true) (values col) ->
  count_present col = Z.of_nat (nrows data).
Proof.
  intros Hal Hcol Hall. unfold count_present.
  rewrite <- (aligned_getitem _ _ _ Hal Hcol). do 2 f_equal.
  induction Hall as [|c l Hc _ IH]; simpl; [done|]. rewrite Hc. simpl. by f_equal.
Qed.

(** C8 as stated fails: [value_counts] leaves missing values out, so a
    record whose headquarters field is empty is in no count.  Two records,
    one of them without headquarters: the counts sum to one. *)
Lemma missing_headquarters_uncounted :
  nrows missing_headquarters = 2%nat /\
  location_frequency Np.argsort missing_headquarters 5
  = inr [(Str "New York", 1%Z)] /\
  ~ (forall argsort data col (topK : nat) r,
        getitem data "Headquarters" = inr col ->
        sorts argsort (sort_input col) ->
        (length (unique col) <= topK)%nat ->
        location_frequency argsort data (Z.of_nat topK) = inr r ->
        sum_counts r = Z.of_nat (nrows data)).
Proof.
  split; [reflexivity|]. split; [reflexivity|]. intros H.
  assert (Hsum : sum_counts [(Str "New York", 1%Z)] = Z.of_nat (nrows missing_headquarters)).
  { apply (H Np.argsort missing_headquarters
             (mkSeries object_ [Str "New York"; nan]) 5%nat);
      [reflexivity | | vm_compute; lia | reflexivity].
    apply stable_at_sorts, few_locations_stable. vm_compute. lia. }
  discriminate Hsum.
Qed.

(** C8, amended.  [value_counts().head(topK)] has at most [topK] pairs.
    When the sort keeps its promise on the counts, as numpy's quicksort does
    at least up to 17 distinct headquarters, and [topK] is at least the
    number of distinct headquarters that are there, the counts sum to the
    number of records whose headquarters is there; that is the number of
    all records when no headquarters is missing. *)
Theorem location_counts_total :
  (forall argsort data col (topK : nat),
      getitem data "Headquarters" = inr col ->
      exists r,
        location_frequency argsort data (Z.of_nat topK) = inr r /\
        (length r <= topK)%nat /\
        (sorts argsort (sort_input col) ->
         (distinct_present col <= topK)%nat ->
         sum_counts r = count_present col) /\
        (aligned data -> Forall (fun c => present c = true) (values col) ->
         count_present col = Z.of_nat (nrows data))) /\
  (forall data col (topK : nat),
      getitem data "Headquarters" = inr col ->
      (distinct_present col <= 17)%nat ->
      (distinct_present col <= topK)%nat ->
      exists r,
        location_frequency Np.argsort data (Z.of_nat topK) = inr r /\
        sum_counts r = count_present col).
Proof.
  assert (Hgen : forall argsort data col (topK : nat),
      getitem data "Headquarters" = inr col ->
      exists r,
        location_frequency argsort data (Z.of_nat topK) = inr r /\
        (length r <= topK)%nat /\
        (sorts argsort (sort_input col) ->
         (distinct_present col <= topK)%nat ->
         sum_counts r = count_present col) /\
        (aligned data -> Forall (fun c => present c = true) (values col) ->
         count_present col = Z.of_nat (nrows data))).
  { intros argsort data col topK Hcol. unfold location_frequency. rewrite Hcol. simpl.
    eexists _. split; [reflexivity|]. split; [|split].
    - rewrite length_head_list. lia.
    - intros Hok Hk. unfold value_counts. rewrite head_list_all.
      + rewrite (sum_counts_Permutation _ _ (sort_values_desc_Permutation _ _ Hok)).
        apply sum_counts_value_count.
      + rewrite (Permutation_length (sort_values_desc_Permutation _ _ Hok)).
        by rewrite length_value_count.
    - intros Hal Hall. by apply (count_present_all data col). }
  split; [done|]. intros data col topK Hcol Hfew Hk.
  destruct (Hgen Np.argsort data col topK Hcol) as (r & Hr & _ & Hsum & _).
  exists r. split; [done|]. apply Hsum; [|done].
  by apply stable_at_sorts, few_locations_stable.
Qed.

Lemma location_counts_total_witness :
  exists r,
    location_frequency Np.argsort (read_csv two_companies) 5 = inr r /\
    sum_counts r = 2%Z.
Proof.
  destruct (proj2 location_counts_total (read_csv two_companies)
              (text ["New York"; "London"]) 5%nat eq_refl) as (r & Hr & Hsum).
  - vm_compute. lia.
  - vm_compute. lia.
  - exists r. split; [done|]. by rewrite Hsum.
Defined.




End Claims.


(* ===================================================================== *)
(** * Beyond the specification: what else the script does *)
(* ===================================================================== *)

Module MoreFacts.
Import Py Pd St Top100 Spec PyFacts PdFacts LoadFacts ViewFacts CountFacts SortFacts.
Local Open Scope string_scope.

Lemma getitem_inr_In df name s : getitem df name = inr s -> In name (columns df).
Proof. intros H%getitem_In. apply in_map_iff. by exists (name, s). Qed.

(** [df[name]] raises exactly when there is no such column, and then it
    is [KeyError]. *)
Lemma getitem_inl df name e :
  getitem df name = inl e <-> e = KeyError /\ ~ In name (columns df).
Proof.
  induction df as [|[n s] df IH]; simpl.
  - split; [intros [= <-]; tauto | by intros [-> _]].
  - destruct (String.eqb_spec n name) as [->|Hne].
    + split; [done | intros [_ H]; tauto].
    + rewrite IH. split; intros [-> H]; (split; [done|]); tauto.
Qed.

Lemma shape_columns df : columns df = map fst (shape df).
Proof.
  unfold columns, shape. rewrite map_map. apply map_ext. by intros [? ?].
Qed.

Lemma shape_nrows df : nrows df = hd 0%nat (map snd (shape df)).
Proof. by destruct df as [|[? ?] ?]. Qed.

Lemma shape_aligned df :
  aligned df <-> Forall (fun p => snd p = nrows df) (shape df).
Proof.
  unfold aligned, shape. rewrite Forall_fmap. apply Forall_proper; [|done].
  by intros [? ?].
Qed.

(** Putting a column of the same length in place of one keeps the shape. *)
Lemma shape_setitem df name s col :
  getitem df name = inr col -> length (values s) = length (values col) ->
  shape (setitem df name s) = shape df.
Proof.
  unfold shape. induction df as [|[n s0] df IH]; simpl; [done|].
  destruct (String.eqb_spec n name) as [->|Hne]; simpl.
  - intros [= ->] ->. done.
  - intros H1 H2. f_equal. by apply IH.
Qed.

(** The digit scan reads digits and underscores only. *)
Lemma scan_digits_chars s : forall us acc d n d' rest,
  scan_digits us acc d s = Some (n, d', rest) ->
  Forall (fun c => int_char c = true) (list_ascii_of_string rest) ->
  Forall (fun c => int_char c = true) (list_ascii_of_string s).
Proof.
  induction s as [|c s IH]; simpl; intros us acc d n d' rest H Hrest.
  - destruct us; by simplify_eq.
  - destruct (is_digit c) eqn:Hd.
    + constructor; [|by eapply IH]. unfold int_char. rewrite Hd.
      by rewrite orb_true_r.
    + destruct (Ascii.eqb c "_") eqn:Hu.
      * destruct us; [done|]. constructor; [|by eapply IH].
        unfold int_char. rewrite Hu. by rewrite orb_true_r.
      * destruct us; [done|]. by simplify_eq.
Qed.

Lemma skip_space_chars s :
  Forall (fun c => int_char c = true) (list_ascii_of_string (skip_space s)) ->
  Forall (fun c => int_char c = true) (list_ascii_of_string s).
Proof.
  induction s as [|c s IH]; simpl; [done|].
  destruct (is_space c) eqn:Hs; [|done].
  intros H. constructor; [|auto]. unfold int_char. by rewrite Hs.
Qed.

(** What [PyLong_FromString] accepts is made of white space, signs, digits
    and underscores. *)
Lemma long_from_string_chars s n :
  long_from_string s = Some n ->
  Forall (fun c => int_char c = true) (list_ascii_of_string s).
Proof.
  unfold long_from_string. intros H. apply skip_space_chars.
  destruct (skip_space s) as [|c t] eqn:E; [done|].
  assert (Hbody : forall body,
             (if starts_with_digit body
              then match scan_digits false 0 0 body with
                   | Some (n0, digits, rest) =>
                       if (digits <=? max_str_digits)%Z
                       then match skip_space rest with
                            | EmptyString => Some n0
                            | String _ _ => None
                            end
                       else None
                   | None => None
                   end
              else None) <> None ->
             Forall (fun c => int_char c = true) (list_ascii_of_string body)).
  { intros body Hb. destruct (starts_with_digit body); [|done].
    destruct (scan_digits false 0 0 body) as [[[m d] rest]|] eqn:Es; [|done].
    eapply scan_digits_chars; [done|]. apply skip_space_chars.
    destruct (d <=? max_str_digits)%Z; [|done]. by destruct (skip_space rest). }
  assert (Hsign : exists neg body,
             split_sign (String c t) = (neg, body) /\
             (body = String c t \/ (body = t /\ int_char c = true))).
  { unfold split_sign.
    destruct c as [[] [] [] [] [] [] [] []]; eauto 6. }
  destruct Hsign as (neg & body & Hsplit & Hshape). rewrite Hsplit in H.
  assert (Hb : Forall (fun c => int_char c = true) (list_ascii_of_string body)).
  { apply Hbody. destruct (starts_with_digit body); [|done].
    destruct (scan_digits false 0 0 body) as [[[m d] rest]|]; [|done].
    destruct (d <=? max_str_digits)%Z; [|done]. by destruct (skip_space rest). }
  destruct Hshape as [->|[-> Hc]]; [done|]. by constructor.
Qed.

(** From the bytes that reach a parser back to the code points of the
    text: where the parser accepts only characters of [P], and neither the
    question mark nor DEL is one, the text is made of the code points that
    [to_ascii] turns into characters of [P]. *)
Lemma to_ascii_points (P : ascii -> bool) s t :
  P "?"%char = false -> P "127"%char = false ->
  to_ascii s = Some t ->
  Forall (fun c => P c = true) (list_ascii_of_string t) ->
  exists chs,
    code_points s = Some chs /\
    Forall (fun ch => (if (ch <? 127)%Z then P (ascii_of ch)
                       else numeral_beyond_ascii ch) = true) chs.
Proof.
  intros Hq Hdel. unfold to_ascii.
  destruct (code_points s) as [chs|] eqn:E; [|done].
  destruct (forallb (fun ch => (ch <? 128)%Z) chs) eqn:Ha; intros [= <-] Ht;
    exists chs; (split; [done|]).
  - rewrite (code_points_all_ascii s chs E Ha) in Ha |- *.
    rewrite forallb_forall in Ha. rewrite List.Forall_forall in Ht.
    apply List.Forall_forall. intros ch Hin.
    specialize (Ha _ Hin). apply Z.ltb_lt in Ha.
    apply in_map_iff in Hin as (c & <- & Hc). specialize (Ht _ Hc).
    destruct (byte c <? 127)%Z eqn:H1; [by rewrite ascii_of_byte|].
    apply Z.ltb_ge in H1. assert (byte c = 127) as Hb by lia.
    rewrite <- (ascii_of_byte c), Hb in Ht. exfalso.
    change (ascii_of 127) with "127"%char in Ht. congruence.
  - clear Ha E. induction chs as [|ch chs IH]; [constructor|].
    simpl in Ht. destruct (ch <? 127)%Z eqn:H1.
    + simpl in Ht. inversion Ht; subst. constructor; [by rewrite H1 | auto].
    + unfold numeral_beyond_ascii. destruct (unicode_isspace ch) eqn:Hs.
      * simpl in Ht. inversion Ht; subst.
        constructor; [by rewrite H1, Hs | auto].
      * destruct (unicode_todecimal ch) as [d|] eqn:Hd; simpl in Ht.
        -- inversion Ht; subst. constructor; [by rewrite H1, Hs, Hd | auto].
        -- inversion Ht; subst. congruence.
Qed.

Lemma In_remove_all c x s :
  In x (list_ascii_of_string s) -> x = c \/ In x (list_ascii_of_string (remove_all c s)).
Proof.
  intros H. unfold remove_all. rewrite list_ascii_of_string_of_list_ascii.
  destruct (Ascii.eqb_spec x c) as [->|Hne]; [by left|]. right.
  apply filter_In. split; [done|]. by destruct (Ascii.eqb_spec x c).
Qed.







(** A revenue column that is not text stops the load at [.str]. *)
Lemma numeric_revenue_refused src col :
  getitem (read_csv src) revenue_col = inr col -> dtype_of col <> object_ ->
  load_data src = inl AttributeError.
Proof.
  intros Hg Hd. unfold load_data. rewrite Hg. simpl. unfold str_replace.
  by destruct (dtype_of col).
Qed.

(** ** The alphabet of [float()] *)

Lemma float_char_digit c : is_digit c = true -> float_char c = true.
Proof.
  intros H. unfold float_char, int_char. rewrite H. by rewrite !orb_true_r.
Qed.

Lemma skip_space_float s :
  Forall (fun c => float_char c = true) (list_ascii_of_string (skip_space s)) ->
  Forall (fun c => float_char c = true) (list_ascii_of_string s).
Proof.
  induction s as [|c s IH]; simpl; [done|].
  destruct (is_space c) eqn:Hs; [|done].
  intros H. constructor; [|auto]. unfold float_char, int_char. by rewrite Hs.
Qed.

Lemma split_sign_float s neg body :
  split_sign s = (neg, body) ->
  Forall (fun c => float_char c = true) (list_ascii_of_string body) ->
  Forall (fun c => float_char c = true) (list_ascii_of_string s).
Proof.
  intros Hs Hb.
  assert (body = s \/ exists c, s = String c body /\ float_char c = true)
    as [->|(c & -> & Hc)]; [|done|by constructor].
  destruct s as [|c s]; [left; by injection Hs as _ <-|].
  unfold split_sign in Hs.
  destruct c as [[] [] [] [] [] [] [] []]; injection Hs as _ <-;
    (by left) || (right; by eexists).
Qed.

Lemma read_digits_float s : forall acc n a n' r,
  read_digits acc n s = (a, n', r) ->
  Forall (fun c => float_char c = true) (list_ascii_of_string r) ->
  Forall (fun c => float_char c = true) (list_ascii_of_string s).
Proof.
  induction s as [|c s IH]; simpl; intros acc n a n' r H Hr.
  - by injection H as _ _ <-.
  - destruct (is_digit c) eqn:Hd.
    + constructor; [by apply float_char_digit | by eapply IH].
    + by injection H as _ _ <-.
Qed.

Lemma read_exponent_float s e r :
  read_exponent s = (e, r) ->
  Forall (fun c => float_char c = true) (list_ascii_of_string r) ->
  Forall (fun c => float_char c = true) (list_ascii_of_string s).
Proof.
  unfold read_exponent. destruct s as [|c s]; [by intros [= _ <-]|].
  destruct (Ascii.eqb (lower_char c) "e") eqn:Hc; [|by intros [= _ <-]].
  destruct (split_sign s) as [eneg body] eqn:Hs.
  destruct (read_digits 0 0 body) as [[v n] rest] eqn:Hd.
  destruct (n =? 0)%Z; intros [= _ <-]; [done|]. intros Hr.
  constructor.
  - unfold float_char. simpl existsb. rewrite Hc. by rewrite orb_true_r.
  - eapply split_sign_float; [done|]. by eapply read_digits_float.
Qed.

Lemma read_decimal_float s m e r :
  read_decimal s = Some (m, e, r) ->
  Forall (fun c => float_char c = true) (list_ascii_of_string r) ->
  Forall (fun c => float_char c = true) (list_ascii_of_string s).
Proof.
  unfold read_decimal.
  destruct (read_digits 0 0 s) as [[ip ni] r1] eqn:H1.
  intros H Hr. eapply read_digits_float; [done|].
  assert (Hpoint : forall r0 m0 nf r2,
            (match r1 with
             | String "." r => let '(m, nf, r2) := read_digits ip 0 r in (m, nf, r2)
             | _ => (ip, 0, r1)
             end) = (m0, nf, r2) ->
            Forall (fun c => float_char c = true) (list_ascii_of_string r2) ->
            r0 = r1 ->
            Forall (fun c => float_char c = true) (list_ascii_of_string r0)).
  { intros r0 m0 nf r2 Hm Hr2 ->.
    destruct r1 as [|c r1']; [by injection Hm as _ _ <-|].
    destruct (Ascii.eqb_spec c ".") as [->|Hne].
    - destruct (read_digits ip 0 r1') as [[m1 nf1] r21] eqn:H2.
      injection Hm as _ _ <-. constructor; [done|]. by eapply read_digits_float.
    - assert ((m0, nf, r2) = (ip, 0, String c r1')) as [= _ _ ->]; [|done].
      rewrite <- Hm. clear -Hne.
      destruct c as [[] [] [] [] [] [] [] []]; try reflexivity. by destruct Hne. }
  destruct (match r1 with
            | String "." r => let '(m, nf, r2) := read_digits ip 0 r in (m, nf, r2)
            | _ => (ip, 0, r1)
            end) as [[m0 nf] r2] eqn:Hm.
  destruct (ni + nf =? 0)%Z; [done|].
  destruct (read_exponent r2) as [e0 r3] eqn:He. injection H as _ _ <-.
  apply (Hpoint r1 m0 nf r2); [done| |done]. by eapply read_exponent_float.
Qed.

Lemma substring_all s : String.substring 0 (String.length s) s = s.
Proof. induction s as [|c s IH]; simpl; [done|]. by rewrite IH. Qed.

(** A text whose lowercase form starts with [p] is as many characters that
    are letters of [p] in either case, followed by the rest. *)
Lemma prefix_lower_split p : forall s,
  String.prefix p (lower s) = true ->
  exists a,
    list_ascii_of_string s
    = (a ++ list_ascii_of_string
              (String.substring (String.length p)
                 (String.length s - String.length p) s))%list /\
    Forall (fun c => In (lower_char c) (list_ascii_of_string p)) a.
Proof.
  induction p as [|x p IH]; intros s H.
  - exists []. simpl. rewrite Nat.sub_0_r, substring_all. by split.
  - destruct s as [|c s]; [done|]. simpl in H.
    destruct (ascii_dec x (lower_char c)) as [->|]; [|done].
    destruct (IH s H) as (a & Ha & Hall). exists (c :: a). split.
    + simpl. by rewrite <- Ha.
    + constructor; [by left|].
      eapply Forall_impl; [exact Hall|]. intros y Hy. by right.
Qed.

Lemma letters_float p a :
  p = "inf" \/ p = "infinity" \/ p = "nan" ->
  Forall (fun c => In (lower_char c) (list_ascii_of_string p)) a ->
  Forall (fun c => float_char c = true) a.
Proof.
  intros Hp Hall. eapply Forall_impl; [exact Hall|].
  intros c Hc. simpl in Hc. unfold float_char.
  assert (existsb (Ascii.eqb (lower_char c))
            ["e"; "i"; "n"; "f"; "t"; "y"; "a"]%char = true) as ->;
    [|by rewrite orb_true_r].
  destruct Hp as [-> | [-> | ->]]; simpl in Hc;
    repeat (destruct Hc as [<-|Hc]; [reflexivity|]); done.
Qed.

Lemma read_inf_or_nan_float neg s f r :
  read_inf_or_nan neg s = Some (f, r) ->
  Forall (fun c => float_char c = true) (list_ascii_of_string r) ->
  Forall (fun c => float_char c = true) (list_ascii_of_string s).
Proof.
  unfold read_inf_or_nan. intros H Hr.
  assert (Hcase : forall p,
            p = "inf" \/ p = "infinity" \/ p = "nan" ->
            String.prefix p (lower s) = true ->
            r = String.substring (String.length p)
                  (String.length s - String.length p) s ->
            Forall (fun c => float_char c = true) (list_ascii_of_string s)).
  { intros p Hp Hpre ->. destruct (prefix_lower_split p s Hpre) as (a & -> & Ha).
    apply Forall_app. split; [by apply (letters_float p)|done]. }
  destruct (String.prefix "inf" (lower s)) eqn:H1.
  - destruct (String.prefix "infinity" (lower s)) eqn:H2; injection H as _ <-.
    + apply (Hcase "infinity"); auto.
    + apply (Hcase "inf"); auto.
  - destruct (String.prefix "nan" (lower s)) eqn:H3; [|done].
    injection H as _ <-. apply (Hcase "nan"); auto.
Qed.

Lemma drop_underscores_float s : forall prev t,
  drop_underscores prev s = Some t ->
  Forall (fun c => float_char c = true) (list_ascii_of_string t) ->
  Forall (fun c => float_char c = true) (list_ascii_of_string s).
Proof.
  induction s as [|c s IH]; intros prev t H Ht; [done|]. simpl in H.
  destruct (Ascii.eqb c "_") eqn:Hu.
  - constructor.
    + unfold float_char, int_char. rewrite Hu. by rewrite !orb_true_r.
    + destruct prev as [p|]; [|done]. destruct (is_digit p); [|done].
      by eapply IH.
  - destruct ((match prev with
               | Some p => Ascii.eqb p "_"
               | None => false
               end) && negb (is_digit c)); [done|].
    destruct (drop_underscores (Some c) s) as [t'|] eqn:E; [|done].
    injection H as <-. simpl in Ht. inversion Ht; subst.
    constructor; [done|]. by eapply IH.
Qed.

(** What the float parser accepts is made of the characters of a float
    numeral. *)
Lemma float_from_string_chars s f :
  float_from_string s = Some f ->
  Forall (fun c => float_char c = true) (list_ascii_of_string s).
Proof.
  unfold float_from_string. intros H.
  destruct (drop_underscores None s) as [t|] eqn:Hd; [|done].
  eapply drop_underscores_float; [done|]. apply skip_space_float.
  destruct (split_sign (skip_space t)) as [neg body] eqn:Hs.
  eapply split_sign_float; [done|].
  assert (Hrest : forall rest,
            (match skip_space rest with
             | EmptyString => Some f
             | String _ _ => None
             end) <> None ->
            Forall (fun c => float_char c = true) (list_ascii_of_string rest)).
  { intros rest Hr. apply skip_space_float. by destruct (skip_space rest). }
  destruct (read_decimal body) as [[[m e] rest]|] eqn:Hr.
  - eapply read_decimal_float; [done|]. apply Hrest.
    destruct (skip_space rest); [done|discriminate H].
  - destruct (read_inf_or_nan neg body) as [[g rest]|] eqn:Hi; [|done].
    eapply read_inf_or_nan_float; [done|].
    apply skip_space_float. by destruct (skip_space rest).
Qed.

(** The input choice, by the source it settles on. *)
Lemma load_chosen u d memo :
  load u d memo
  = match chosen u d with
    | Some src =>
        match cached_load_data memo src with
        | (inr df, memo') => (inr df, memo')
        | (inl e, memo') => (inl (Raised e), memo')
        end
    | None => (inl (Warned no_input_msg), memo)
    end.
Proof. by destruct u, d. Qed.

(** The three ways a call of the cached function can go. *)
Lemma cached_load_data_cases memo src r memo' :
  cached_load_data memo src = (r, memo') ->
  (exists df, memo !! ident src = Some df /\ r = inr df /\ memo' = memo) \/
  (exists df, memo !! ident src = None /\ load_data src = inr df /\
              r = inr df /\ memo' = <[ident src := df]> memo) \/
  (exists e, memo !! ident src = None /\ load_data src = inl e /\
             r = inl e /\ memo' = memo).
Proof.
  unfold cached_load_data, cache_data.
  destruct (memo !! ident src) as [df|] eqn:E.
  - intros [= <- <-]. left. by exists df.
  - destruct (load_data src) as [e|df] eqn:L; intros [= <- <-]; right.
    + right. by exists e.
    + left. by exists df.
Qed.

Lemma positions_in_cons d c l vals :
  positions_in (mkSeries d (c :: l)) vals
  = ((if member c vals then [0%nat] else []) ++
     map S (positions_in (mkSeries d l) vals))%list.
Proof.
  unfold positions_in. simpl values. simpl length.
  change (seq 0 (S (length l))) with (0%nat :: seq 1 (length l)).
  rewrite <- seq_shift. cbn [List.filter]. rewrite filter_map_swap.
  change ((c :: l) !! 0%nat) with (Some c).
  by destruct (member c vals).
Qed.

Lemma positions_in_range s vals :
  Forall (fun i => i < length (values s))%nat (positions_in s vals).
Proof.
  apply List.Forall_forall. intros i [Hi _]%filter_In. apply in_seq in Hi. lia.
Qed.

Lemma positions_in_spec s vals i :
  In i (positions_in s vals) <->
  exists c, values s !! i = Some c /\ member c vals = true.
Proof.
  unfold positions_in. rewrite filter_In, in_seq. split.
  - intros [_ H]. destruct (values s !! i) as [c|]; [by exists c | done].
  - intros (c & Hc & Hm). rewrite Hc. split; [|done].
    apply lookup_lt_Some in Hc. lia.
Qed.

Lemma take_at_nil {A} idx : take_at ([] : list A) idx = [].
Proof. unfold take_at. by induction idx. Qed.

Lemma take_at_cons_S {A} (a : A) l idx : take_at (a :: l) (map S idx) = take_at l idx.
Proof.
  unfold take_at. induction idx as [|i idx IH]; [done|].
  simpl. destruct (l !! i); [f_equal|]; exact IH.
Qed.

Lemma length_take_at {A} (a : list A) idx :
  Forall (fun i => i < length a)%nat idx -> length (take_at a idx) = length idx.
Proof.
  unfold take_at. induction 1 as [|i idx Hi _ IH]; simpl; [done|].
  destruct (lookup_lt_is_Some_2 a i Hi) as [x ->]. simpl. f_equal. exact IH.
Qed.

(** Selection by the mask of [isin] takes the positions of the members. *)
Lemma select_positions {A} d vals : forall (l : list cell) (x : list A),
  select (map (fun c => member c vals) l) x
  = take_at x (positions_in (mkSeries d l) vals).
Proof.
  induction l as [|c l IH]; intros x; [done|].
  rewrite positions_in_cons. destruct x as [|a x]; simpl.
  - by rewrite take_at_nil.
  - rewrite IH, <- (take_at_cons_S a x). by destruct (member c vals).
Qed.

Lemma getitem_mask_isin df col vals :
  getitem_mask df (isin col vals)
  = map (fun '(name, s) =>
           (name, mkSeries (dtype_of s)
                    (take_at (values s) (positions_in col vals)))) df.
Proof.
  unfold getitem_mask, isin. destruct col as [d l]. simpl values.
  apply map_ext. intros [name s]. by rewrite (select_positions d).
Qed.

Lemma getitem_map_values (f : Series -> Series) df name :
  getitem (map (fun '(n, s) => (n, f s)) df) name
  = match getitem df name with
    | inr s => inr (f s)
    | inl e => inl e
    end.
Proof.
  induction df as [|[n s] df IH]; simpl; [done|].
  by destruct (String.eqb n name).
Qed.

Lemma getitem_head n df name :
  getitem (head n df) name
  = match getitem df name with
    | inr s => inr (head_series n s)
    | inl e => inl e
    end.
Proof. apply (getitem_map_values (head_series n)). Qed.

Lemma In_getitem df name : In name (columns df) -> exists s, getitem df name = inr s.
Proof.
  intros H. destruct (getitem df name) as [e|s] eqn:E; [|by exists s].
  apply getitem_inl in E as [_ E]. done.
Qed.

(** The loop finds a column exactly when some column names a company, and
    the column it finds has a name that is not empty. *)
Lemma company_col_inr data :
  (exists name, company_col data = inr name) <->
  Exists names_a_company (columns data).
Proof.
  unfold company_col. split.
  - intros [name H].
    destruct (find_company_col (columns data)) as [c|] eqn:E; [|done].
    apply find_company_col_Some in E as (pre & post & -> & Hc & _).
    apply Exists_app. right. constructor. by apply names_company_spec.
  - intros H.
    assert (exists c, find_company_col (columns data) = Some c /\
                      names_company c = true) as (c & -> & Hc).
    { induction H as [c cols Hc|c cols _ IH]; simpl.
      - apply names_company_spec in Hc. rewrite Hc. by exists c.
      - destruct (names_company c) eqn:Hc; [by exists c | done]. }
    destruct c as [|a c]; [discriminate Hc|]. by eexists.
Qed.

Lemma company_col_In data name : company_col data = inr name -> In name (columns data).
Proof.
  unfold company_col.
  destruct (find_company_col (columns data)) as [c|] eqn:E; [|done].
  apply find_company_col_Some in E as (pre & post & Hcols & _).
  destruct c; [done|]. intros [= <-]. rewrite Hcols. apply in_elt.
Qed.

Lemma company_col_inl data h :
  company_col data = inl h ->
  h = Errored no_company_msg /\
  Forall (fun c => ~ names_a_company c) (columns data).
Proof.
  intros H. split.
  - unfold company_col in H.
    destruct (find_company_col (columns data)) as [[|]|]; congruence.
  - apply List.Forall_forall. intros c Hc Hn.
    assert (Hex : Exists names_a_company (columns data)).
    { apply List.Exists_exists. by exists c. }
    apply company_col_inr in Hex as [name Hex]. congruence.
Qed.

(** What a run shows when the three columns it needs are there. *)
Lemma render_inr_of argsort data selection name col hq :
  company_col data = inr name ->
  getitem data "Industry" = inr col ->
  getitem data "Headquarters" = inr hq ->
  render argsort data selection
  = inr (mkViews name (preview data)
           (head 10 (getitem_mask data (isin col (default (unique col) selection))))
           (top_10 data)
           (head_list 5 (value_counts argsort hq))).
Proof.
  intros Hc Hi Hh. unfold render. rewrite Hc.
  unfold industry_options, filtered_data, top_locations, location_frequency.
  rewrite Hi, Hh. reflexivity.
Qed.

Lemma render_inr argsort data selection v :
  render argsort data selection = inr v ->
  exists name col hq,
    company_col data = inr name /\
    getitem data "Industry" = inr col /\
    getitem data "Headquarters" = inr hq /\
    v = mkViews name (preview data)
          (head 10 (getitem_mask data (isin col (default (unique col) selection))))
          (top_10 data)
          (head_list 5 (value_counts argsort hq)).
Proof.
  intros H.
  destruct (company_col data) as [h|name] eqn:Hc;
    [unfold render in H; by rewrite Hc in H|].
  destruct (getitem data "Industry") as [e|col] eqn:Hi.
  { unfold render, industry_options in H. by rewrite Hc, Hi in H. }
  destruct (getitem data "Headquarters") as [e|hq] eqn:Hh.
  { unfold render, industry_options, filtered_data, top_locations,
      location_frequency in H. by rewrite Hc, Hi, Hh in H. }
  rewrite (render_inr_of argsort data selection name col hq) in H by done.
  injection H as <-. by exists name, col, hq.
Qed.

(** ** Counting *)

Lemma float_eqb_sym f g : float_eqb f g = float_eqb g f.
Proof.
  destruct (float_eqb f g) eqn:E1, (float_eqb g f) eqn:E2; try done.
  - apply float_eqb_true in E1 as [->|(s & t & -> & ->)].
    + by rewrite float_eqb_refl in E2.
    + assert (float_eqb (S754_zero t) (S754_zero s) = true); [|congruence].
      apply float_eqb_true. right. by exists t, s.
  - apply float_eqb_true in E2 as [->|(s & t & -> & ->)].
    + by rewrite float_eqb_refl in E1.
    + assert (float_eqb (S754_zero t) (S754_zero s) = true); [|congruence].
      apply float_eqb_true. right. by exists t, s.
Qed.

Lemma cell_eqb_sym a b : cell_eqb a b = cell_eqb b a.
Proof.
  destruct a, b; simpl; try done.
  - apply String.eqb_sym.
  - apply Z.eqb_sym.
  - apply float_eqb_sym.
Qed.

(** Equal keys are equal to the same cells. *)
Lemma cell_eqb_congr a b c : cell_eqb a b = true -> cell_eqb c a = cell_eqb c b.
Proof.
  intros Hab.
  destruct (cell_eqb c a) eqn:E1, (cell_eqb c b) eqn:E2; try done.
  - by rewrite (cell_eqb_trans c a b) in E2.
  - rewrite cell_eqb_sym in Hab. by rewrite (cell_eqb_trans c b a) in E1.
Qed.

Lemma occurrences_app k l1 l2 :
  occurrences k (l1 ++ l2) = occurrences k l1 + occurrences k l2.
Proof. unfold occurrences. rewrite List.filter_app, length_app. lia. Qed.

Lemma occurrences_one k c :
  occurrences k [c] = if cell_eqb c k then 1 else 0.
Proof. unfold occurrences. simpl. by destruct (cell_eqb c k). Qed.

Lemma occurrences_pos k l : In k l -> 1 <= occurrences k l.
Proof.
  intros Hin. unfold occurrences.
  assert (In k (List.filter (fun c => cell_eqb c k) l)).
  { apply filter_In. split; [done|]. apply cell_eqb_refl. }
  destruct (List.filter (fun c => cell_eqb c k) l); [done|]. simpl length. lia.
Qed.

Lemma occurrences_congr a b l :
  cell_eqb a b = true -> occurrences a l = occurrences b l.
Proof.
  intros Hab. unfold occurrences. do 2 f_equal.
  apply filter_ext. intros c. by apply cell_eqb_congr.
Qed.

(** Keys of which no two are equal. *)
Lemma distinct_snoc K c :
  ForallOrdPairs (fun a b => cell_eqb a b = false) K ->
  member c K = false ->
  ForallOrdPairs (fun a b => cell_eqb a b = false) (K ++ [c]).
Proof.
  intros HK Hc. induction HK as [|k K Hk HK IH]; simpl.
  - repeat constructor.
  - simpl in Hc. apply orb_false_iff in Hc as [Hck Hc]. constructor.
    + apply Forall_app. split; [done|]. constructor; [|done].
      by rewrite cell_eqb_sym.
    + by apply IH.
Qed.

Lemma distinct_lookup K i j a b :
  ForallOrdPairs (fun a b => cell_eqb a b = false) K ->
  i <> j -> K !! i = Some a -> K !! j = Some b -> cell_eqb a b = false.
Proof.
  intros HK. revert i j a b.
  assert (Hlt : forall i j a b, (i < j)%nat -> K !! i = Some a -> K !! j = Some b ->
                                cell_eqb a b = false).
  { induction HK as [|k K Hk HK IH]; intros i j a b Hij Hi Hj; [done|].
    destruct j as [|j]; [lia|]. simpl in Hj. destruct i as [|i].
    - injection Hi as <-. rewrite List.Forall_forall in Hk. apply Hk.
      apply list_elem_of_In. by eapply list_elem_of_lookup_2.
    - simpl in Hi. apply (IH i j); [lia|done..]. }
  intros i j a b Hij Hi Hj.
  destruct (decide (i < j)%nat); [by apply (Hlt i j)|].
  rewrite cell_eqb_sym. apply (Hlt j i); [lia|done..].
Qed.

Lemma distinct_In K c k k' :
  ForallOrdPairs (fun a b => cell_eqb a b = false) K ->
  In k K -> In k' K -> cell_eqb c k = true -> cell_eqb c k' = true -> k = k'.
Proof.
  intros HK [i Hi]%list_elem_of_In%list_elem_of_lookup_1
            [j Hj]%list_elem_of_In%list_elem_of_lookup_1 Hk Hk'.
  destruct (decide (i = j)) as [->|Hne]; [congruence|].
  assert (cell_eqb k k' = false) as Hkk by (by apply (distinct_lookup K i j)).
  rewrite cell_eqb_sym in Hk. by rewrite (cell_eqb_trans k c k') in Hkk.
Qed.

Lemma unique_from_distinct l : forall seen,
  ForallOrdPairs (fun a b => cell_eqb a b = false) seen ->
  ForallOrdPairs (fun a b => cell_eqb a b = false) (unique_from seen l).
Proof.
  induction l as [|c l IH]; intros seen H; simpl; [done|].
  destruct (member c seen) eqn:Hm; apply IH; [done|]. by apply distinct_snoc.
Qed.

Lemma unique_from_In l : forall seen c,
  In c (unique_from seen l) -> In c seen \/ In c l.
Proof.
  induction l as [|a l IH]; intros seen c H; simpl in *; [by left|].
  destruct (member a seen).
  - destruct (IH _ _ H); auto.
  - destruct (IH _ _ H) as [[?|[<-|[]]]%in_app_or|?]; auto.
Qed.

(** The values found stand in the order in which they first appear in what
    has been read, and every value read is among them. *)
Lemma unique_from_order l : forall K seen,
  ((forall i j k1 k2,
       (i < j)%nat -> K !! i = Some k1 -> K !! j = Some k2 ->
       (first_pos k1 seen < first_pos k2 seen)%nat) /\
   (forall k, In k K -> (first_pos k seen < length seen)%nat) /\
   (forall c, In c seen -> member c K = true)) ->
  forall i j k1 k2,
    (i < j)%nat ->
    unique_from K l !! i = Some k1 -> unique_from K l !! j = Some k2 ->
    (first_pos k1 (seen ++ l) < first_pos k2 (seen ++ l))%nat.
Proof.
  induction l as [|c l IH]; intros K seen (Hord & Hfound & Hcover); simpl.
  { rewrite app_nil_r. apply Hord. }
  rewrite (cons_middle c seen l), app_assoc.
  assert (Hold : forall k, In k K -> first_pos k (seen ++ [c]) = first_pos k seen)
    by (intros k Hk; by apply first_pos_app_found, Hfound).
  destruct (member c K) eqn:Hmem; apply IH; repeat split.
  - intros i j k1 k2 Hij H1 H2.
    assert (Hk1 : In k1 K) by (apply list_elem_of_In; by eapply list_elem_of_lookup_2).
    assert (Hk2 : In k2 K) by (apply list_elem_of_In; by eapply list_elem_of_lookup_2).
    rewrite !Hold by done. by apply (Hord i j).
  - intros k Hk. rewrite Hold, length_app by done. specialize (Hfound k Hk). lia.
  - intros e [He|[<-|[]]]%in_app_or; [by apply Hcover | done].
  - assert (Hfresh : forall e, In e seen -> cell_eqb c e = false).
    { intros e He. destruct (cell_eqb c e) eqn:Hce; [|done].
      apply Hcover, member_In in He as (k & Hk & Hek).
      assert (member c K = true); [|congruence].
      apply member_In. exists k. split; [done|]. by eapply cell_eqb_trans. }
    assert (Hnew : first_pos c (seen ++ [c]) = length seen).
    { rewrite first_pos_app_fresh by done. simpl. rewrite cell_eqb_refl. lia. }
    intros i j k1 k2 Hij H1 H2.
    assert (Hj : (j < length (K ++ [c]))%nat) by (by eapply lookup_lt_Some).
    rewrite length_app in Hj. simpl in Hj.
    rewrite lookup_app_l in H1 by lia.
    assert (Hk1 : In k1 K) by (apply list_elem_of_In; by eapply list_elem_of_lookup_2).
    destruct (decide (j < length K)%nat) as [Hlt|Hge].
    + rewrite lookup_app_l in H2 by done.
      assert (Hk2 : In k2 K) by (apply list_elem_of_In; by eapply list_elem_of_lookup_2).
      rewrite !Hold by done. by apply (Hord i j).
    + rewrite lookup_app_r in H2 by lia.
      replace (j - length K)%nat with 0%nat in H2 by lia. injection H2 as <-.
      rewrite Hold by done.
      rewrite first_pos_app_fresh by done. simpl. rewrite cell_eqb_refl.
      specialize (Hfound k1 Hk1). lia.
  - assert (Hfresh : forall e, In e seen -> cell_eqb c e = false).
    { intros e He. destruct (cell_eqb c e) eqn:Hce; [|done].
      apply Hcover, member_In in He as (k & Hk & Hek).
      assert (member c K = true); [|congruence].
      apply member_In. exists k. split; [done|]. by eapply cell_eqb_trans. }
    intros k [Hk|[<-|[]]]%in_app_or; rewrite length_app; simpl.
    + rewrite Hold by done. specialize (Hfound k Hk). lia.
    + rewrite first_pos_app_fresh by done. simpl. rewrite cell_eqb_refl. lia.
  - intros e [He|[<-|[]]]%in_app_or; rewrite member_app.
    + by rewrite Hcover.
    + simpl. rewrite cell_eqb_refl. by rewrite orb_true_r.
Qed.

(** What [bump] does to one entry of a table with distinct keys. *)
Lemma bump_In c tab k n :
  ForallOrdPairs (fun a b => cell_eqb a b = false) (map fst tab) ->
  In (k, n) (bump c tab) ->
  (In (k, n) tab /\ cell_eqb c k = false) \/
  (exists n0, In (k, n0) tab /\ cell_eqb c k = true /\ n = n0 + 1) \/
  (k = c /\ n = 1 /\ member c (map fst tab) = false).
Proof.
  induction tab as [|[k0 n0] tab IH]; simpl; intros HK Hin.
  - destruct Hin as [[= <- <-]|[]]. right. right. done.
  - inversion HK as [|? ? Hk0 HK']; subst.
    destruct (cell_eqb c k0) eqn:Hc; simpl in Hin.
    + destruct Hin as [[= <- <-]|Hin].
      * right. left. exists n0. auto.
      * left. split; [by right|].
        destruct (cell_eqb c k) eqn:Hck; [|done].
        rewrite List.Forall_forall in Hk0.
        assert (cell_eqb k0 k = false) as Hkk.
        { apply Hk0. apply in_map_iff. by exists (k, n). }
        rewrite cell_eqb_sym in Hc. by rewrite (cell_eqb_trans k0 c k) in Hkk.
    + destruct Hin as [[= <- <-]|Hin].
      * left. split; [by left | done].
      * destruct (IH HK' Hin) as [[H1 H2]|[(m & H1 & H2 & H3)|(H1 & H2 & H3)]].
        -- left. split; [by right | done].
        -- right. left. exists m. split; [by right | done].
        -- right. right. by rewrite H3.
Qed.

Lemma bump_distinct c tab :
  ForallOrdPairs (fun a b => cell_eqb a b = false) (map fst tab) ->
  ForallOrdPairs (fun a b => cell_eqb a b = false) (map fst (bump c tab)).
Proof.
  intros HK. rewrite keys_bump.
  destruct (member c (map fst tab)) eqn:Hm; [done|]. by apply distinct_snoc.
Qed.

(** Every entry of the counting table holds a value of the column that is
    not missing, with the number of its occurrences; no two keys are equal,
    and every value read that is not missing has its key. *)
Lemma count_from_exact l : forall tab seen,
  (ForallOrdPairs (fun a b => cell_eqb a b = false) (map fst tab) /\
   (forall k n, In (k, n) tab ->
      isna k = false /\ In k seen /\ n = occurrences k seen) /\
   (forall e, In e seen -> isna e = false -> member e (map fst tab) = true)) ->
  ForallOrdPairs (fun a b => cell_eqb a b = false) (map fst (count_from tab l)) /\
  (forall k n, In (k, n) (count_from tab l) ->
     isna k = false /\ In k (seen ++ l) /\ n = occurrences k (seen ++ l)) /\
  (forall e, In e (seen ++ l) -> isna e = false ->
             member e (map fst (count_from tab l)) = true).
Proof.
  induction l as [|c l IH]; intros tab seen (HK & Hinv & Hcover); simpl.
  { by rewrite app_nil_r. }
  rewrite (cons_middle c seen l), app_assoc.
  destruct (isna c) eqn:Hna; apply IH; (split; [|split]).
  - done.
  - intros k' n' Hin'. destruct (Hinv _ _ Hin') as (H1 & H2 & H3).
    split; [done|]. split; [apply in_or_app; by left|].
    rewrite occurrences_app, occurrences_one.
    rewrite cell_eqb_sym, (cell_eqb_nan k' c) by done. lia.
  - intros e [He|[<-|[]]]%in_app_or Hne; [by apply Hcover | congruence].
  - by apply bump_distinct.
  - intros k' n' Hin'.
    rewrite occurrences_app, occurrences_one.
    destruct (bump_In c tab k' n' HK Hin')
      as [[H1 H2]|[(m & H1 & H2 & ->)|(-> & -> & H3)]].
    + destruct (Hinv _ _ H1) as (Ha & Hb & Hc). rewrite H2.
      split; [done|]. split; [apply in_or_app; by left | lia].
    + destruct (Hinv _ _ H1) as (Ha & Hb & Hc). rewrite H2.
      split; [done|]. split; [apply in_or_app; by left | lia].
    + rewrite cell_eqb_refl. split; [done|].
      split; [apply in_or_app; right; by left|].
      assert (occurrences c seen = 0) as ->; [|done].
      unfold occurrences.
      destruct (List.filter (fun x => cell_eqb x c) seen) as [|x xs] eqn:E; [done|].
      assert (In x (List.filter (fun x => cell_eqb x c) seen)) as [Hx Hxc]%filter_In
        by (rewrite E; by left).
      assert (isna x = false) as Hnx.
      { destruct (isna x) eqn:Hnx; [|done].
        rewrite cell_eqb_sym, (cell_eqb_nan c x) in Hxc; done. }
      apply Hcover, member_In in Hx as (k & Hk & Hxk); [|done].
      assert (member c (map fst tab) = true); [|congruence].
      apply member_In. exists k. split; [done|].
      rewrite cell_eqb_sym in Hxc. by eapply cell_eqb_trans.
  - intros e He Hne. rewrite keys_bump.
    assert (member e (map fst tab ++ [c]) = true) as Hm.
    { rewrite member_app. apply in_app_or in He as [He|[<-|[]]].
      - by rewrite Hcover.
      - simpl. rewrite cell_eqb_refl. by rewrite !orb_true_r. }
    destruct (member c (map fst tab)) eqn:Hc; [|done].
    rewrite member_app in Hm. apply orb_true_iff in Hm as [Hm|Hm]; [done|].
    simpl in Hm. rewrite orb_false_r in Hm.
    apply member_In in Hc as (k & Hk & Hck).
    apply member_In. exists k. split; [done|]. by eapply cell_eqb_trans.
Qed.

(** The counting table of a column. *)
Lemma value_count_exact l :
  ForallOrdPairs (fun a b => cell_eqb a b = false) (map fst (value_count l)) /\
  (forall k n, In (k, n) (value_count l) ->
     isna k = false /\ In k l /\ n = occurrences k l) /\
  (forall e, In e l -> isna e = false ->
             member e (map fst (value_count l)) = true).
Proof.
  apply (count_from_exact l [] []). repeat split; try done. constructor.
Qed.

Lemma In_take_at {A} (a : list A) idx x : In x (take_at a idx) -> In x a.
Proof.
  unfold take_at. intros H%list_elem_of_In%list_elem_of_omap.
  destruct H as (i & _ & Hi). apply list_elem_of_In. by eapply list_elem_of_lookup_2.
Qed.

Lemma In_head_list {A} n (l : list A) x : In x (head_list n l) -> In x l.
Proof.
  unfold head_list. intros H%list_elem_of_In. apply list_elem_of_In.
  apply elem_of_take in H as (i & Hi & _). by eapply list_elem_of_lookup_2.
Qed.

End MoreFacts.

Module Extras.
Import Py Pd St Top100 Spec PyFacts PdFacts LoadFacts ViewFacts CountFacts SortFacts
  NpFacts MoreFacts.
Local Open Scope string_scope.

(** X1.  [load_data] changes two columns and nothing else: the frame it
    returns has the columns of the frame it read, in the same order and each
    of the same length (so as many records, and one entry per record in
    every column if that held before); every column other than the revenue
    and the growth is the very column that was read, and those two have
    become an integer and a float column. *)
Theorem load_keeps_shape src data :
  load_data src = inr data ->
  shape data = shape (read_csv src) /\
  columns data = columns (read_csv src) /\
  nrows data = nrows (read_csv src) /\
  (aligned (read_csv src) -> aligned data) /\
  (forall name, name <> revenue_col -> name <> growth_col ->
                getitem data name = getitem (read_csv src) name) /\
  (exists rev gro, getitem data revenue_col = inr rev /\ dtype_of rev = int64 /\
                   getitem data growth_col = inr gro /\ dtype_of gro = float64).
Proof.
  intros H.
  assert (Hshape : shape data = shape (read_csv src)).
  { apply load_data_inr in H
      as (rev & gro & ints & floats & Hr & _ & Hg & _ & Hi & Hf & ->).
    rewrite (shape_setitem _ _ _ gro).
    - apply (shape_setitem _ _ _ rev); [done|]. simpl.
      by rewrite length_map, <- (Forall2_length _ _ _ Hi).
    - by rewrite getitem_setitem_ne.
    - simpl. by rewrite length_map, <- (Forall2_length _ _ _ Hf). }
  split; [done|]. split; [by rewrite !shape_columns, Hshape|].
  split; [by rewrite !shape_nrows, Hshape|]. split; [|split].
  - rewrite !shape_aligned, !shape_nrows, Hshape. done.
  - intros name Hr Hg.
    apply load_data_inr in H as (rev & gro & ints & floats & _ & _ & _ & _ & _ & _ & ->).
    by rewrite !getitem_setitem_ne.
  - apply load_data_cells in H
      as (_ & rev' & _ & gro' & _ & Hr' & _ & Hg' & Hd & Hd' & _).
    by exists rev', gro'.
Qed.

Lemma load_keeps_shape_witness :
  exists data,
    load_data two_companies = inr data /\
    columns data = ["Name"; revenue_col; growth_col; "Industry"; "Headquarters"] /\
    nrows data = 2%nat.
Proof.
  destruct (load_data two_companies) as [e|data] eqn:E; [discriminate E|].
  destruct (load_keeps_shape two_companies data E) as (_ & Hcols & Hn & _).
  exists data. by rewrite Hcols, Hn.
Defined.



(** X3.  [load_data] cannot be applied to its own result: the frame it
    returns has an integer revenue column, which has no [.str], so loading
    a frame that is already normalised raises [AttributeError]. *)
Theorem reload_refused src data id :
  load_data src = inr data ->
  load_data (mkSource id data) = inl AttributeError.
Proof.
  intros H.
  apply load_data_cells in H as (_ & rev' & _ & _ & _ & Hr & _ & _ & Hd & _).
  apply (numeric_revenue_refused (mkSource id data) rev'); [done|].
  by rewrite Hd.
Qed.

Lemma reload_refused_witness :
  exists data,
    load_data two_companies = inr data /\
    load_data (mkSource "again.csv" data) = inl AttributeError.
Proof.
  destruct (load_data two_companies) as [e|data] eqn:E; [discriminate E|].
  exists data. split; [done|].
  exact (reload_refused two_companies data "again.csv" E).
Defined.

(** X4.  Missing values are treated differently in the two columns.  In
    a file that loads, every revenue field holds text: an empty one would
    have stopped the load.  An empty growth field, or any growth entry that
    is not text, goes through and is missing (NaN) in the result. *)
Theorem missing_growth_stays_missing src data :
  load_data src = inr data ->
  (forall rev c,
      getitem (read_csv src) revenue_col = inr rev -> In c (values rev) ->
      exists s, c = Str s) /\
  (forall gro gro' i c,
      getitem (read_csv src) growth_col = inr gro ->
      getitem data growth_col = inr gro' ->
      values gro !! i = Some c -> (forall s, c <> Str s) ->
      values gro' !! i = Some nan).
Proof.
  intros H.
  apply load_data_cells in H
    as (rev & rev' & gro & gro' & Hr & Hr' & Hg & Hg' & _ & _ & _ & _ & Hrev & Hgro).
  split.
  - intros rev0 c Hr0 Hin. assert (rev0 = rev) as -> by congruence.
    apply list_elem_of_In, list_elem_of_lookup_1 in Hin as [i Hi].
    destruct (Hrev i c Hi) as (s & _ & -> & _). by exists s.
  - intros gro0 gro0' i c Hg0 Hg0' Hi Hc.
    assert (gro0 = gro) as -> by congruence.
    assert (gro0' = gro') as -> by congruence.
    destruct (Hgro i c Hi) as (f & Hf & Hm).
    destruct c as [s|n|g]; [by destruct (Hc s) | by subst..].
Qed.

Lemma missing_growth_stays_missing_witness :
  exists data gro',
    load_data missing_growth = inr data /\
    getitem data growth_col = inr gro' /\
    values gro' !! 1%nat = Some nan.
Proof.
  destruct (load_data missing_growth) as [e|data] eqn:E; [discriminate E|].
  destruct (getitem data growth_col) as [e|gro'] eqn:G;
    [revert G; injection E as <-; discriminate|].
  exists data, gro'. split; [done|]. split; [done|].
  apply (proj2 (missing_growth_stays_missing missing_growth data E)
           (mkSeries object_ [Str "5%"; nan]) gro' 1%nat nan);
    [reflexivity | exact G | reflexivity | discriminate].
Defined.

(** X5.  The alphabet of a revenue.  In a file that loads, the characters
    of a revenue text are commas and the characters of an integer numeral:
    digits, underscores, the two signs and white space, those of ASCII and,
    beyond ASCII, the decimal digits and the white space of Unicode.  One
    decimal point, currency sign or letter in one revenue field stops the
    load. *)
Theorem revenue_alphabet src data rev s chs :
  load_data src = inr data ->
  getitem (read_csv src) revenue_col = inr rev -> In (Str s) (values rev) ->
  code_points s = Some chs ->
  Forall (fun ch => ch = 44 \/ int_point ch = true) chs /\
  ~ has_char "." s /\ ~ has_char "$" s.
Proof.
  intros H Hr Hin Hs.
  assert (Hall : Forall (fun ch => ch = 44 \/ int_point ch = true) chs).
  { apply load_data_cells in H
      as (rev0 & rev' & gro & gro' & Hr0 & _ & _ & _ & _ & _ & _ & _ & Hrev & _).
    assert (rev0 = rev) as -> by congruence.
    apply list_elem_of_In, list_elem_of_lookup_1 in Hin as [i Hi].
    destruct (Hrev i _ Hi) as (s' & n & [= <-] & Hp & _).
    unfold parse_int in Hp.
    destruct (to_ascii (remove_all "," s)) as [t|] eqn:Et; [|done].
    apply long_from_string_chars in Hp.
    destruct (to_ascii_points int_char _ t eq_refl eq_refl Et Hp) as (chs' & Hc & Hpts).
    rewrite (code_points_remove_all "," s chs) in Hc by done.
    injection Hc as <-. rewrite List.Forall_forall in Hpts.
    apply List.Forall_forall. intros ch Hch.
    destruct (Z.eqb_spec ch 44) as [->|Hne]; [by left|]. right.
    apply (Hpts ch). apply filter_In. split; [done|].
    change (byte ",") with 44. by destruct (Z.eqb_spec ch 44). }
  split; [done|]. rewrite List.Forall_forall in Hall.
  split; intros Hc; apply (code_points_In s chs _ Hs) in Hc; try done;
    by destruct (Hall _ Hc).
Qed.

Lemma revenue_alphabet_witness :
  Forall (fun ch => ch = 44 \/ int_point ch = true) [49; 44; 48; 48; 48; 160] /\
  ~ has_char "." (String.append "1,000" no_break_space) /\
  ~ has_char "$" (String.append "1,000" no_break_space).
Proof.
  destruct (load_data numerals_beyond_ascii) as [e|data] eqn:E; [discriminate E|].
  apply (revenue_alphabet numerals_beyond_ascii data
           (text [String.append "1,000" no_break_space; arabic_123])
           (String.append "1,000" no_break_space) _ E);
    [reflexivity | simpl; by left | reflexivity].
Defined.

(** X6.  Once a run has loaded a file, every later run whose input has the
    same identity (the same path, the same upload) works on the frame that
    was loaded then, whatever the file holds by now, and whatever is
    selected; the cache is not written again. *)
Theorem rerun_uses_cache argsort u d memo data memo' :
  load u d memo = (inr data, memo') ->
  forall u' d' selection,
    option_map ident (chosen u' d') = option_map ident (chosen u d) ->
    run argsort u' d' selection memo' = (render argsort data selection, memo').
Proof.
  rewrite load_chosen. intros H u' d' selection Hid.
  destruct (chosen u d) as [src|]; [|done].
  destruct (chosen u' d') as [src'|] eqn:Hc'; [|done].
  injection Hid as Hid.
  assert (Hhit : memo' !! ident src' = Some data).
  { rewrite Hid.
    destruct (cached_load_data memo src) as [r m] eqn:E.
    apply cached_load_data_cases in E
      as [(df & Hm & -> & ->)|[(df & Hm & _ & -> & ->)|(e & _ & _ & -> & ->)]];
      [| |done]; injection H as <- <-; [done|].
    apply lookup_insert_eq. }
  unfold run. rewrite load_chosen, Hc'.
  unfold cached_load_data, cache_data. by rewrite Hhit.
Qed.

Lemma rerun_uses_cache_witness :
  exists data memo',
    load None (Some two_companies) ∅ = (inr data, memo') /\
    run Np.argsort (Some (mkSource "Largest_Companies.csv" [])) None None memo'
    = (render Np.argsort data None, memo').
Proof.
  destruct (load None (Some two_companies) ∅) as [[h|data] memo'] eqn:E;
    [discriminate E|].
  exists data, memo'. split; [done|].
  exact (rerun_uses_cache Np.argsort None (Some two_companies) ∅ data memo' E
           (Some (mkSource "Largest_Companies.csv" [])) None None eq_refl).
Defined.

(** X7.  What the cache holds.  If every frame in the cache is what
    [load_data] made of some source of its identity, the same is true after
    a run, and the frame the run works on is such a frame for the
    identity of the chosen input.  A run never removes or replaces an entry,
    and it leaves the entries of all other identities alone. *)
Theorem cache_stays_sound u d memo r memo' :
  memo_sound memo ->
  load u d memo = (r, memo') ->
  memo_sound memo' /\
  (forall k df, memo !! k = Some df -> memo' !! k = Some df) /\
  (forall k, (forall src, chosen u d = Some src -> k <> ident src) ->
             memo' !! k = memo !! k) /\
  (forall data, r = inr data ->
     exists src0 src,
       chosen u d = Some src0 /\ ident src = ident src0 /\
       load_data src = inr data).
Proof.
  intros Hs. rewrite load_chosen.
  destruct (chosen u d) as [src0|].
  2:{ intros [= <- <-]. repeat split; [done..|]. by intros data [=]. }
  destruct (cached_load_data memo src0) as [r0 m] eqn:E.
  apply cached_load_data_cases in E
    as [(df & Hm & -> & ->)|[(df & Hm & Hl & -> & ->)|(e & Hm & Hl & -> & ->)]];
    intros [= <- <-].
  - repeat split; [done..|]. intros data [= <-].
    destruct (Hs _ _ Hm) as (src & Hid & Hl). by exists src0, src.
  - split; [|split; [|split]].
    + intros k df' Hk. destruct (decide (k = ident src0)) as [->|Hne].
      * rewrite lookup_insert_eq in Hk. injection Hk as <-. by exists src0.
      * rewrite lookup_insert_ne in Hk by done. by apply Hs.
    + intros k df' Hk. rewrite lookup_insert_ne; [done|]. congruence.
    + intros k Hk. rewrite lookup_insert_ne; [done|].
      intros Heq. by apply (Hk src0).
    + intros data [= <-]. by exists src0, src0.
  - repeat split; [done..|]. by intros data [=].
Qed.

Lemma cache_stays_sound_witness :
  exists data memo',
    load (Some two_companies) None ∅ = (inr data, memo') /\
    memo_sound memo' /\
    exists src, ident src = "Largest_Companies.csv" /\ load_data src = inr data.
Proof.
  destruct (load (Some two_companies) None ∅) as [[h|data] memo'] eqn:E;
    [discriminate E|].
  assert (Hs : memo_sound ∅) by (intros k df Hk; discriminate Hk).
  destruct (cache_stays_sound (Some two_companies) None ∅ (inr data) memo' Hs E)
    as (Hs' & _ & _ & Hd).
  exists data, memo'. split; [done|]. split; [done|].
  destruct (Hd data eq_refl) as (src0 & src & Hc & Hid & Hl).
  exists src. split; [|done]. injection Hc as <-. exact Hid.
Defined.

(** X8.  A run that stops in the loading leaves the cache as it was.  It
    stops with the warning exactly when there is neither an upload nor a
    default file; otherwise it stops with the exception that [load_data]
    raised on the chosen input, which was not in the cache.  A failure is
    never stored, so the next run reads the file again. *)
Theorem load_halts u d memo h memo' :
  load u d memo = (inl h, memo') ->
  memo' = memo /\
  ((u = None /\ d = None /\ h = Warned no_input_msg) \/
   (exists src e,
       chosen u d = Some src /\ memo !! ident src = None /\
       load_data src = inl e /\ h = Raised e)).
Proof.
  rewrite load_chosen. destruct (chosen u d) as [src|] eqn:Hc.
  - destruct (cached_load_data memo src) as [r m] eqn:E.
    apply cached_load_data_cases in E
      as [(df & Hm & -> & ->)|[(df & Hm & Hl & -> & ->)|(e & Hm & Hl & -> & ->)]];
      [done..|].
    intros [= <- <-]. split; [done|]. right. by exists src, e.
  - intros [= <- <-]. split; [done|]. left. by destruct u, d.
Qed.

Lemma load_halts_witness :
  exists src e,
    chosen (Some letters_for_revenue) (Some two_companies) = Some src /\
    load_data src = inl e /\
    load (Some letters_for_revenue) (Some two_companies) ∅ = (inl (Raised e), ∅).
Proof.
  assert (E : load (Some letters_for_revenue) (Some two_companies) ∅
               = (inl (Raised ValueError), ∅)) by reflexivity.
  destruct (load_halts _ _ _ _ _ E)
    as (_ & [(Hu & _)|(src & e & Hc & _ & Hl & He)]); [discriminate Hu|].
  exists src, e. split; [done|]. split; [done|]. by rewrite <- He.
Defined.

(** X9.  The tabs need three columns and nothing else: a run on loaded
    data gets through exactly when some column names a company and the
    columns "Industry" and "Headquarters" are there.  Otherwise it stops
    with the message about the company column, or, when that column is
    found, with [KeyError] for a missing "Industry" or "Headquarters". *)
Theorem render_needs_columns argsort data selection :
  ((exists v, render argsort data selection = inr v) <->
   Exists names_a_company (columns data) /\
   In "Industry" (columns data) /\ In "Headquarters" (columns data)) /\
  (forall h, render argsort data selection = inl h ->
     (h = Errored no_company_msg /\
      Forall (fun c => ~ names_a_company c) (columns data)) \/
     (h = Raised KeyError /\ Exists names_a_company (columns data) /\
      (~ In "Industry" (columns data) \/ ~ In "Headquarters" (columns data)))).
Proof.
  split; [split|].
  - intros [v (name & col & hq & Hc & Hi & Hh & _)%render_inr].
    split; [apply company_col_inr; by exists name|].
    split; by eapply getitem_inr_In.
  - intros (Hc%company_col_inr & Hi%In_getitem & Hh%In_getitem).
    destruct Hc as [name Hc], Hi as [col Hi], Hh as [hq Hh].
    rewrite (render_inr_of argsort data selection name col hq) by done.
    by eexists.
  - intros h H.
    destruct (company_col data) as [h'|name] eqn:Hc.
    { left. unfold render in H. rewrite Hc in H. injection H as <-.
      by apply company_col_inl. }
    right.
    assert (Hex : Exists names_a_company (columns data)).
    { apply company_col_inr. by exists name. }
    destruct (getitem data "Industry") as [e|col] eqn:Hi.
    { unfold render, industry_options in H. rewrite Hc, Hi in H.
      injection H as <-. apply getitem_inl in Hi as [-> Hi]. auto. }
    destruct (getitem data "Headquarters") as [e|hq] eqn:Hh.
    { unfold render, industry_options, filtered_data, top_locations,
        location_frequency in H. rewrite Hc, Hi, Hh in H.
      injection H as <-. apply getitem_inl in Hh as [-> Hh]. auto. }
    by rewrite (render_inr_of argsort data selection name col hq) in H.
Qed.

(** X10.  The charts find their columns.  When the tabs of a run on a
    loaded file are shown, the ten-record table that both charts draw from
    has the revenue column, as integers, the growth column, as floats, the
    "Industry" column and the company column that colours the points. *)
Theorem chart_columns_exist argsort src data selection v :
  load_data src = inr data ->
  render argsort data selection = inr v ->
  (exists rev, getitem (v_top_10 v) revenue_col = inr rev /\ dtype_of rev = int64) /\
  (exists gro, getitem (v_top_10 v) growth_col = inr gro /\ dtype_of gro = float64) /\
  (exists ind, getitem (v_top_10 v) "Industry" = inr ind) /\
  (exists names, getitem (v_top_10 v) (v_company_col v) = inr names) /\
  (nrows (v_top_10 v) <= 10)%nat.
Proof.
  intros Hl (name & col & hq & Hc & Hi & _ & ->)%render_inr. simpl.
  apply load_data_cells in Hl
    as (rev & rev' & gro & gro' & _ & Hr & _ & Hg & Hd & Hd' & _).
  unfold top_10. rewrite !getitem_head, Hr, Hg, Hi.
  apply company_col_In, In_getitem in Hc as [names Hc]. rewrite Hc.
  repeat split; [by eexists..|].
  change 10 with (Z.of_nat 10). rewrite nrows_head. lia.
Qed.

Lemma chart_columns_exist_witness :
  exists data v,
    load_data two_companies = inr data /\
    render Np.argsort data None = inr v /\
    (exists rev, getitem (v_top_10 v) revenue_col = inr rev /\ dtype_of rev = int64) /\
    (exists names, getitem (v_top_10 v) "Name" = inr names).
Proof.
  destruct (load_data two_companies) as [e|data] eqn:E; [discriminate E|].
  destruct (render Np.argsort data None) as [h|v] eqn:R;
    [revert R; injection E as <-; discriminate|].
  destruct (chart_columns_exist Np.argsort two_companies data None v E R)
    as (Hrev & _ & _ & Hnames & _).
  exists data, v. split; [done|]. split; [done|]. split; [done|].
  replace (v_company_col v) with "Name" in Hnames; [done|].
  revert R. injection E as <-. intros [= <-]. reflexivity.
Defined.

(** X11.  Filtering keeps whole records, in their order.  On a frame
    with one entry per record in every column, the filtered frame has the
    same columns, again one entry per record, and its record number [j] is,
    cell for cell, the record of the data at the [j]-th position whose
    industry is among the selected ones; past those it has no record. *)
Theorem filter_keeps_whole_records data industries col out :
  aligned data ->
  getitem data "Industry" = inr col ->
  filtered_data data industries = inr out ->
  columns out = columns data /\
  aligned out /\
  nrows out = length (positions_in col industries) /\
  (forall j, row j out = match positions_in col industries !! j with
                         | Some i => row i data
                         | None => no_record data
                         end) /\
  (forall i, In i (positions_in col industries) <->
             exists c, values col !! i = Some c /\ member c industries = true).
Proof.
  intros Ha Hi H. unfold filtered_data in H. rewrite Hi in H.
  injection H as <-. rewrite getitem_mask_isin.
  set (ps := positions_in col industries).
  assert (Hlen : forall name s, In (name, s) data ->
                   Forall (fun i => i < length (values s))%nat ps).
  { intros name s Hin.
    pose proof (proj1 (List.Forall_forall _ _) Ha _ Hin) as Hs. simpl in Hs.
    rewrite <- (aligned_getitem data "Industry" col Ha Hi) in Hs. rewrite Hs.
    apply positions_in_range. }
  split; [|split; [|split; [|split]]].
  - unfold columns. rewrite map_map. apply map_ext. by intros [? ?].
  - assert (Hn : nrows (map (fun '(name, s) =>
                   (name, mkSeries (dtype_of s) (take_at (values s) ps))) data)
                 = length ps).
    { destruct data as [|[n s] data]; [done|]. simpl.
      apply length_take_at. apply (Hlen n s). by left. }
    unfold aligned. rewrite Hn. apply List.Forall_forall.
    intros [n s] ([n0 s0] & Heq & Hin)%in_map_iff.
    injection Heq as <- <-. simpl.
    apply length_take_at. by apply (Hlen n0 s0).
  - destruct data as [|[n s] data]; [done|]. simpl.
    apply length_take_at. apply (Hlen n s). by left.
  - intros j. unfold row, no_record. rewrite map_map.
    destruct (ps !! j) as [i|] eqn:Hj.
    + apply map_ext_in. intros [n s] Hin. simpl.
      rewrite take_at_lookup by (by apply (Hlen n s)). by rewrite Hj.
    + apply map_ext_in. intros [n s] Hin. simpl.
      rewrite take_at_lookup by (by apply (Hlen n s)). by rewrite Hj.
  - intros i. apply positions_in_spec.
Qed.

Lemma filter_keeps_whole_records_witness :
  exists out,
    filtered_data (read_csv two_companies) [Str "Retail"] = inr out /\
    nrows out = 1%nat /\
    row 0 out = row 1 (read_csv two_companies).
Proof.
  assert (Ha : aligned (read_csv two_companies)) by (repeat constructor).
  destruct (filter_keeps_whole_records (read_csv two_companies) [Str "Retail"]
              (text ["Tech"; "Retail"]) _ Ha eq_refl eq_refl)
    as (_ & _ & Hn & Hrow & _).
  eexists. split; [reflexivity|]. split; [exact Hn | exact (Hrow 0%nat)].
Defined.

(** X12.  The second table of the first tab shows the first ten records
    of the data whose industry is selected, whole and in their order; with
    the selection left as it is set at the start, all industries, it shows
    the same ten records as the first table. *)
Theorem filtered_table_first_ten argsort data selection v col :
  aligned data ->
  getitem data "Industry" = inr col ->
  render argsort data selection = inr v ->
  nrows (v_filtered v)
  = Nat.min 10 (length (positions_in col (default (unique col) selection))) /\
  (forall j, (j < 10)%nat ->
     row j (v_filtered v)
     = match positions_in col (default (unique col) selection) !! j with
       | Some i => row i data
       | None => no_record data
       end) /\
  (selection = None -> v_filtered v = v_preview v).
Proof.
  intros Ha Hi (name & col' & hq & Hc & Hi' & _ & ->)%render_inr. simpl.
  assert (col' = col) as -> by congruence.
  set (industries := default (unique col) selection).
  split; [|split].
  - change 10 with (Z.of_nat 10). rewrite nrows_head.
    assert (Hn : nrows (getitem_mask data (isin col industries))
                 = length (positions_in col industries)); [|by rewrite Hn].
    rewrite getitem_mask_isin.
    destruct data as [|[n s] data]; [done|]. cbn [nrows map values].
    apply length_take_at.
    pose proof (aligned_getitem _ "Industry" col Ha Hi) as Hs.
    cbn [nrows] in Hs. rewrite <- Hs. apply positions_in_range.
  - intros j Hj. change 10 with (Z.of_nat 10). rewrite row_head.
    apply Nat.ltb_lt in Hj. rewrite Hj.
    rewrite getitem_mask_isin. unfold row, no_record. rewrite map_map.
    assert (Hlen : forall n s, In (n, s) data ->
              Forall (fun i => i < length (values s))%nat
                     (positions_in col industries)).
    { intros n s Hin.
      pose proof (proj1 (List.Forall_forall _ _) Ha _ Hin) as Hs. simpl in Hs.
      rewrite <- (aligned_getitem data "Industry" col Ha Hi) in Hs. rewrite Hs.
      apply positions_in_range. }
    destruct (positions_in col industries !! j) as [i|] eqn:Hji;
      apply map_ext_in; intros [n s] Hin; simpl;
      rewrite take_at_lookup by (by apply (Hlen n s)); by rewrite Hji.
  - intros ->. unfold industries, preview. simpl. f_equal.
    apply getitem_mask_all; [done|apply isin_unique|].
    unfold isin. rewrite length_map. by apply aligned_getitem with "Industry".
Qed.

Lemma filtered_table_first_ten_witness :
  exists v,
    render Np.argsort (read_csv two_companies) (Some [Str "Retail"]) = inr v /\
    nrows (v_filtered v) = 1%nat /\
    row 0 (v_filtered v) = row 1 (read_csv two_companies).
Proof.
  assert (Ha : aligned (read_csv two_companies)) by (repeat constructor).
  destruct (render Np.argsort (read_csv two_companies) (Some [Str "Retail"]))
    as [h|v] eqn:R; [discriminate R|].
  destruct (filtered_table_first_ten Np.argsort (read_csv two_companies)
              (Some [Str "Retail"]) v (text ["Tech"; "Retail"]) Ha eq_refl R)
    as (Hn & Hrow & _).
  exists v. split; [done|]. split; [exact Hn|]. apply (Hrow 0%nat). lia.
Defined.

(** X13.  The counts are exact, whatever the sort does.  Every pair that
    the headquarters table lists holds a headquarters that occurs in the
    data and is not missing, with the number of records that have it, which
    is at least one. *)
Theorem location_counts_exact argsort data col topK r :
  getitem data "Headquarters" = inr col ->
  location_frequency argsort data topK = inr r ->
  forall k n, In (k, n) r ->
    isna k = false /\ In k (values col) /\
    n = occurrences k (values col) /\ 1 <= n.
Proof.
  intros Hh H k n Hin. unfold location_frequency in H. rewrite Hh in H.
  injection H as <-. apply In_head_list in Hin.
  unfold value_counts, sort_values_desc in Hin. apply In_take_at in Hin.
  destruct (value_count_exact (values col)) as (_ & Hex & _).
  destruct (Hex _ _ Hin) as (H1 & H2 & H3). repeat split; try done.
  rewrite H3. by apply occurrences_pos.
Qed.

Lemma location_counts_exact_witness :
  exists r,
    location_frequency Np.argsort (read_csv two_companies) 5 = inr r /\
    In (Str "London", 1) r /\
    1 = occurrences (Str "London") [Str "New York"; Str "London"].
Proof.
  exists [(Str "New York", 1); (Str "London", 1)]. split; [reflexivity|].
  assert (Hin : In (Str "London", 1) [(Str "New York", 1); (Str "London", 1)])
    by (right; by left).
  split; [done|].
  exact (proj1 (proj2 (proj2
           (location_counts_exact Np.argsort (read_csv two_companies)
              (text ["New York"; "London"]) 5 _ eq_refl eq_refl
              (Str "London") 1 Hin)))).
Defined.

(** X14.  The listed locations are the most frequent ones.  When the sort
    puts the counts in order, the table has as many entries as there are
    distinct headquarters, up to [topK]; no headquarters is listed twice;
    and every headquarters of the data is either listed or has no more
    records than each of the listed ones. *)
Theorem top_locations_are_top argsort data col (topK : nat) r :
  getitem data "Headquarters" = inr col ->
  sorts argsort (sort_input col) ->
  location_frequency argsort data (Z.of_nat topK) = inr r ->
  length r = Nat.min topK (distinct_present col) /\
  (forall i j k1 n1 k2 n2,
      i <> j -> r !! i = Some (k1, n1) -> r !! j = Some (k2, n2) ->
      cell_eqb k1 k2 = false) /\
  (forall k, In k (values col) -> isna k = false ->
     member k (map fst r) = true \/
     forall k' n', In (k', n') r -> occurrences k (values col) <= n').
Proof.
  intros Hh Hs H. unfold location_frequency in H. rewrite Hh in H.
  injection H as <-. unfold value_counts, sort_input in *.
  set (tab := value_count (values col)) in *.
  destruct (value_count_exact (values col)) as (Hdist & Hex & Hcover).
  fold tab in Hdist, Hex, Hcover.
  pose proof (sort_values_desc_Permutation argsort tab Hs) as Hperm.
  split; [|split].
  - rewrite length_head_list, (Permutation_length Hperm). unfold tab.
    by rewrite length_value_count.
  - intros i j k1 n1 k2 n2 Hij Hi Hj.
    rewrite lookup_head_list in Hi, Hj.
    destruct (i <? topK)%nat; [|done]. destruct (j <? topK)%nat; [|done].
    apply (sort_values_desc_lookup argsort tab _ _ Hs) in Hi as (a & Ha & Hta).
    apply (sort_values_desc_lookup argsort tab _ _ Hs) in Hj as (b & Hb & Htb).
    assert (Hab : a <> b).
    { intros <-. apply Hij.
      assert (Hnd : NoDup (nargsort_desc argsort (map snd tab))).
      { rewrite (nargsort_desc_Permutation argsort _ Hs). apply NoDup_seq. }
      by apply (NoDup_lookup _ i j a Hnd). }
    apply (distinct_lookup (map fst tab) a b); [done..| |].
    + by rewrite list_lookup_fmap, Hta.
    + by rewrite list_lookup_fmap, Htb.
  - intros k Hk Hna.
    apply Hcover, member_In in Hk as (k0 & Hk0 & Hkk0); [|done].
    apply in_map_iff in Hk0 as ([k0' n0] & Hfst & Hin0). simpl in Hfst. subst k0'.
    destruct (Hex _ _ Hin0) as (_ & _ & Hn0).
    rewrite (occurrences_congr k k0) by done. rewrite <- Hn0.
    assert (In (k0, n0) (sort_values_desc argsort tab)) as Hsorted.
    { apply (Permutation_in _ (Permutation_sym Hperm) Hin0). }
    apply list_elem_of_In, list_elem_of_lookup_1 in Hsorted as [y Hy].
    destruct (decide (y < topK)%nat) as [Hlt|Hge].
    + left. apply member_In. exists k0. split; [|done].
      apply in_map_iff. exists (k0, n0). split; [done|].
      apply list_elem_of_In. apply (list_elem_of_lookup_2 _ y).
      rewrite lookup_head_list. by apply Nat.ltb_lt in Hlt as ->.
    + right. intros k' n' Hin'.
      apply list_elem_of_In, list_elem_of_lookup_1 in Hin' as [x Hx].
      rewrite lookup_head_list in Hx.
      destruct (x <? topK)%nat eqn:Hxk; [|done]. apply Nat.ltb_lt in Hxk.
      destruct (sort_values_desc_pair argsort tab x y k' n' k0 n0 Hs)
        as (_ & _ & _ & _ & Hle & _); [lia|done..].
Qed.

Lemma top_locations_are_top_witness :
  exists r,
    location_frequency Np.argsort (read_csv two_companies) 5 = inr r /\
    length r = 2%nat.
Proof.
  assert (Hs : sorts Np.argsort (sort_input (text ["New York"; "London"]))).
  { apply stable_at_sorts, NpFacts.argsort_small_stable. simpl. lia. }
  destruct (top_locations_are_top Np.argsort (read_csv two_companies)
              (text ["New York"; "London"]) 5%nat _ eq_refl Hs eq_refl)
    as (Hlen & _).
  eexists. split; [reflexivity | exact Hlen].
Defined.

(** X15.  The industry filter offers each industry once.  The options of
    the multiselect are values of the "Industry" column, every value of the
    column is among them (a missing one too), no two options are equal, and
    they stand in the order in which they first appear in the column. *)
Theorem industry_options_distinct data col :
  getitem data "Industry" = inr col ->
  exists options,
    industry_options data = inr options /\
    (forall c, In c (values col) -> member c options = true) /\
    (forall c, In c options -> In c (values col)) /\
    (forall i j a b,
        (i < j)%nat -> options !! i = Some a -> options !! j = Some b ->
        cell_eqb a b = false /\
        (first_pos a (values col) < first_pos b (values col))%nat).
Proof.
  intros Hi. exists (unique col). unfold industry_options. rewrite Hi.
  split; [done|]. unfold unique. split; [|split].
  - intros c Hc. apply member_unique_from. by right.
  - intros c Hc. by destruct (unique_from_In _ _ _ Hc).
  - intros i j a b Hij Ha Hb. split.
    + apply (distinct_lookup (unique_from [] (values col)) i j); [|lia|done..].
      apply unique_from_distinct. constructor.
    + apply (unique_from_order (values col) [] [] ltac:(repeat split; done) i j);
        done.
Qed.

Lemma industry_options_distinct_witness :
  exists options,
    industry_options (read_csv two_companies) = inr options /\
    forall c, In c options -> In c [Str "Tech"; Str "Retail"].
Proof.
  destruct (industry_options_distinct (read_csv two_companies)
              (text ["Tech"; "Retail"]) eq_refl)
    as (options & Ho & _ & Hin & _).
  exists options. split; [exact Ho | exact Hin].
Defined.

(** X17.  The alphabet of a growth.  In a file that loads, the characters
    of a growth text are percent signs and the characters of a float
    numeral: digits, the point, the signs, underscores, white space and the
    letters of an exponent, of [inf], [infinity] and [nan], and, beyond
    ASCII, the decimal digits and the white space of Unicode.  A comma in
    one growth field, as in a decimal comma, stops the load. *)
Theorem growth_alphabet src data gro s chs :
  load_data src = inr data ->
  getitem (read_csv src) growth_col = inr gro -> In (Str s) (values gro) ->
  code_points s = Some chs ->
  Forall (fun ch => ch = 37 \/ float_point ch = true) chs /\
  ~ has_char "," s.
Proof.
  intros H Hg Hin Hs.
  assert (Hall : Forall (fun ch => ch = 37 \/ float_point ch = true) chs).
  { apply load_data_cells in H
      as (rev & rev' & gro0 & gro' & _ & _ & Hg0 & _ & _ & _ & _ & _ & _ & Hgro).
    assert (gro0 = gro) as -> by congruence.
    apply list_elem_of_In, list_elem_of_lookup_1 in Hin as [i Hi].
    destruct (Hgro i _ Hi) as (f & _ & Hp).
    unfold parse_float in Hp.
    destruct (to_ascii (remove_all "%" s)) as [t|] eqn:Et; [|done].
    apply float_from_string_chars in Hp.
    destruct (to_ascii_points float_char _ t eq_refl eq_refl Et Hp)
      as (chs' & Hc & Hpts).
    rewrite (code_points_remove_all "%" s chs) in Hc by done.
    injection Hc as <-. rewrite List.Forall_forall in Hpts.
    apply List.Forall_forall. intros ch Hch.
    destruct (Z.eqb_spec ch 37) as [->|Hne]; [by left|]. right.
    apply (Hpts ch). apply filter_In. split; [done|].
    change (byte "%") with 37. by destruct (Z.eqb_spec ch 37). }
  split; [done|]. rewrite List.Forall_forall in Hall.
  intros Hc. apply (code_points_In s chs _ Hs) in Hc; [|done].
  by destruct (Hall _ Hc).
Qed.

Lemma growth_alphabet_witness :
  Forall (fun ch => ch = 37 \/ float_point ch = true) [1635; 46; 1637; 37] /\
  ~ has_char "," (String.append arabic_3_5 "%").
Proof.
  destruct (load_data numerals_beyond_ascii) as [e|data] eqn:E; [discriminate E|].
  apply (growth_alphabet numerals_beyond_ascii data
           (text [String.append "5.0%" no_break_space; String.append arabic_3_5 "%"])
           (String.append arabic_3_5 "%") _ E);
    [reflexivity | simpl; right; by left | reflexivity].
Defined.

End Extras.
